(** * wg-easy automation: a shallow embedding of [solve.py]

    The script drives a web administration panel through a headless
    browser.  Everything the script itself decides is embedded here:
    the text handling of the two file readers, the control flow and the
    exception handling of the four browser operations, the batch loop
    and the command-line dispatch.  The browser, the file system and the
    clock are the environment: they are a record of functions over an
    abstract world, and every theorem quantifies over that record.

    Conventions.
    - A Python [str] is a [string]; a character is a code point below
      256, so that [str.strip] can be given its real whitespace set on
      that range.
    - Time is an integer number of milliseconds.  [time.sleep(1)] lasts
      one second plus a non-negative overshoot chosen by the
      environment; every other statement is instantaneous.
    - Exceptions are instances of Python's [Exception]; an operation
      yields a value, raises, or runs forever ([Diverge]). *)

From Stdlib Require Import ZArith Ascii String DecimalString Lia.
From stdpp Require Import gmap strings list.

Local Open Scope string_scope.
Local Open Scope Z_scope.
Local Open Scope list_scope.

(** ** Python text primitives *)

Module Py.

(** [str.isspace] on one code point below 256: TAB..CR, FS..US, space,
    NEL (0x85) and NBSP (0xA0). *)
Definition isspace (c : ascii) : bool :=
  let n := N_of_ascii c in
  ((9 <=? n) && (n <=? 13) || (28 <=? n) && (n <=? 32)
   || (n =? 133) || (n =? 160))%N.

Fixpoint lstrip (s : string) : string :=
  match s with
  | EmptyString => EmptyString
  | String c r => if isspace c then lstrip r else s
  end.

Fixpoint rstrip (s : string) : string :=
  match s with
  | EmptyString => EmptyString
  | String c r =>
      match rstrip r with
      | EmptyString => if isspace c then EmptyString else String c EmptyString
      | r' => String c r'
      end
  end.

(** [str.strip()] *)
Definition strip (s : string) : string := lstrip (rstrip s).

(** Truth value of a [str]: non-empty. *)
Definition truthy (s : string) : bool :=
  match s with EmptyString => false | String _ _ => true end.

(** [str.startswith] with a one-character prefix. *)
Definition startswith_char (c : ascii) (s : string) : bool :=
  match s with
  | String d _ => if ascii_dec c d then true else false
  | EmptyString => false
  end.

Definition LF : ascii := "010"%char.
Definition CR : ascii := "013"%char.

(** Text mode [open(path, 'r')] uses universal newlines: CR LF and a
    lone CR are read as LF. *)
Fixpoint universal_newlines (s : string) : string :=
  match s with
  | EmptyString => EmptyString
  | String c r =>
      if ascii_dec c CR then
        match r with
        | String d r' =>
            if ascii_dec d LF then String LF (universal_newlines r')
            else String LF (universal_newlines r)
        | EmptyString => String LF EmptyString
        end
      else String c (universal_newlines r)
  end.

(** Iterating over a text file yields its lines, each with its
    terminating LF (the last one may lack it). *)
Fixpoint iter_lines (s : string) : list string :=
  match s with
  | EmptyString => []
  | String c r =>
      if ascii_dec c LF then String LF EmptyString :: iter_lines r
      else match iter_lines r with
           | [] => [String c EmptyString]
           | l :: ls => String c l :: ls
           end
  end.

Definition file_lines (content : string) : list string :=
  iter_lines (universal_newlines content).

(** [s.split(sep, 1)] for a one-character separator: one piece when the
    separator is absent, two otherwise (cut at its first occurrence). *)
Fixpoint split1 (sep : ascii) (s : string) : list string :=
  match s with
  | EmptyString => [EmptyString]
  | String c r =>
      if ascii_dec c sep then [EmptyString; r]
      else match split1 sep r with
           | p :: ps => String c p :: ps
           | [] => [String c EmptyString]
           end
  end.

(** [sep in s] *)
Fixpoint contains_char (sep : ascii) (s : string) : bool :=
  match s with
  | EmptyString => false
  | String c r => if ascii_dec c sep then true else contains_char sep r
  end.

Definition ascii_upper (c : ascii) : ascii :=
  let n := N_of_ascii c in
  if ((97 <=? n) && (n <=? 122))%N then ascii_of_N (n - 32) else c.

Definition ascii_lower (c : ascii) : ascii :=
  let n := N_of_ascii c in
  if ((65 <=? n) && (n <=? 90))%N then ascii_of_N (n + 32) else c.

Fixpoint lower (s : string) : string :=
  match s with
  | EmptyString => EmptyString
  | String c r => String (ascii_lower c) (lower r)
  end.

(** [str.capitalize()] on ASCII letters. *)
Definition capitalize (s : string) : string :=
  match s with
  | EmptyString => EmptyString
  | String c r => String (ascii_upper c) (lower r)
  end.

(** [str(n)] for a non-negative [int]. *)
Definition str_of_nat (n : nat) : string :=
  NilZero.string_of_uint (Nat.to_uint n).

End Py.

(** ** Exceptions, outcomes and the state-and-exception monad *)

Inductive exn_class : Type :=
| TimeoutException
| NoSuchElementException
| WebDriverException
| OSError
| UnicodeDecodeError
| ValueError
| KeyError.

(** An exception instance: its class and [str(e)]. *)
Record exn : Type := Exn { exn_cls : exn_class; exn_str : string }.

Definition exn_class_eqb (a b : exn_class) : bool :=
  match a, b with
  | TimeoutException, TimeoutException
  | NoSuchElementException, NoSuchElementException
  | WebDriverException, WebDriverException
  | OSError, OSError
  | UnicodeDecodeError, UnicodeDecodeError
  | ValueError, ValueError
  | KeyError, KeyError => true
  | _, _ => false
  end.

(** What the environment answers to one call. *)
Inductive reply (A : Type) : Type :=
| Ok (a : A)
| Fail (e : exn).
Arguments Ok {A} a.
Arguments Fail {A} e.

(** What running a piece of the script produces. *)
Inductive outcome (A : Type) : Type :=
| Ret (a : A)
| Raise (e : exn)
| Diverge.
Arguments Ret {A} a.
Arguments Raise {A} e.
Arguments Diverge {A}.

Definition M (S A : Type) : Type := S -> outcome A * S.

Definition ret {S A} (a : A) : M S A := fun s => (Ret a, s).
Definition raise {S A} (e : exn) : M S A := fun s => (Raise e, s).
Definition diverge {S A} : M S A := fun s => (Diverge, s).

Definition bind {S A B} (m : M S A) (k : A -> M S B) : M S B :=
  fun s =>
    match m s with
    | (Ret a, s') => k a s'
    | (Raise e, s') => (Raise e, s')
    | (Diverge, s') => (Diverge, s')
    end.

Notation "'do' x <- m ; k" := (bind m (fun x => k))
  (at level 10, x name, m at level 99, k at level 200,
   format "'[v' 'do'  x  <-  m ; '/' k ']'").

(** [try: body except Exception as e: handler e] *)
Definition try_except {S A} (body : M S A) (handler : exn -> M S A) : M S A :=
  fun s =>
    match body s with
    | (Raise e, s') => handler e s'
    | r => r
    end.

(** [try: body except cls: handler] catches instances of [cls] only. *)
Definition try_except_cls {S A} (cls : exn_class) (body : M S A)
    (handler : M S A) : M S A :=
  fun s =>
    match body s with
    | (Raise e, s') =>
        if exn_class_eqb (exn_cls e) cls then handler s' else (Raise e, s')
    | r => r
    end.

(** [try: body finally: fin].  The final block runs however the body
    ends; an exception of the final block replaces the body's result. *)
Definition try_finally {S A} (body : M S A) (fin : M S unit) : M S A :=
  fun s =>
    match body s with
    | (Diverge, s') => (Diverge, s')
    | (r, s') =>
        match fin s' with
        | (Ret _, s'') => (r, s'')
        | (Raise e, s'') => (Raise e, s'')
        | (Diverge, s'') => (Diverge, s'')
        end
    end.

(** The computation ends, with a value or with an exception. *)
Definition halts {S A} (m : M S A) : Prop :=
  forall s, fst (m s) <> Diverge.

(** The computation ends with a value. *)
Definition returns {S A} (m : M S A) : Prop :=
  forall s, exists a s', m s = (Ret a, s').

(** ** The environment: browser, file system, clock *)

Inductive By : Type := XPATH.

(** A [WebElement] handle. *)
Definition element : Type := nat.

(** A call on the browser driver or on one of its elements. *)
Inductive call : Type :=
| DriverGet (url : option string)
| WaitPresence (by_ : By) (value : string) (timeout : Z)
| FindElement (parent : element) (by_ : By) (value : string)
| GetAttribute (e : element) (attr : string)
| Click (e : element)
| Clear (e : element)
| SendKeys (e : element) (text : string)
| DriverQuit.

Inductive level : Type := INFO | ERROR.

(** What the process does that the outside can observe, in order. *)
Inductive event : Type :=
| Log (lvl : level) (msg : string)       (* the script's own logger *)
| RootLog (lvl : level) (msg : string)   (* [logging.error] *)
| Drv (c : call) (failure : option exn)
| Mkdir (path : string) (failure : option exn)
| ChromeStart (download_dir : string) (failure : option exn)
| Sleep (ms : Z)
| PbarOpen (total : nat) (desc : string)
| PbarUpdate (n : nat)
| PbarClose
| PrintHelp
| Look (path : string) (answer : reply bool).   (* [Path.exists()] *)

Record Env (W : Type) : Type := {
  (* [Path.cwd()] when the module is loaded *)
  cwd : string;
  (* [open(path, 'r')] and reading the file to its end *)
  read_text : string -> W -> reply string;
  (* [Path.mkdir(exist_ok=True)] *)
  fs_mkdir : string -> W -> reply unit * W;
  (* [Path.exists()] at this instant, the browser being in this state:
     true, false, or the [OSError] of a [stat] that fails for another
     reason than a missing path (a name too long, a directory that may
     not be searched) *)
  fs_exists : string -> W -> Z -> reply bool;
  (* how much longer than one second a [time.sleep(1)] begun at this
     instant lasts *)
  oversleep : Z -> N;
  (* [webdriver.Chrome(service=..., options=...)] *)
  chrome_start : string -> W -> reply unit * W;
  (* [driver.get(url)]; the url is [None] when it comes from an absent
     attribute *)
  drv_get : option string -> W -> reply unit * W;
  (* [WebDriverWait(driver, timeout).until(presence_of_element_located)] *)
  drv_wait : By -> string -> Z -> W -> reply element * W;
  drv_find : element -> By -> string -> W -> reply element * W;
  drv_attr : element -> string -> W -> reply (option string) * W;
  drv_click : element -> W -> reply unit * W;
  drv_clear : element -> W -> reply unit * W;
  drv_send_keys : element -> string -> W -> reply unit * W;
  drv_quit : W -> reply unit * W
}.
Arguments cwd {W}.
Arguments read_text {W}.
Arguments fs_mkdir {W}.
Arguments fs_exists {W}.
Arguments oversleep {W}.
Arguments chrome_start {W}.
Arguments drv_get {W}.
Arguments drv_wait {W}.
Arguments drv_find {W}.
Arguments drv_attr {W}.
Arguments drv_click {W}.
Arguments drv_clear {W}.
Arguments drv_send_keys {W}.
Arguments drv_quit {W}.

(** The process: the world it acts on, its clock (ms) and its trace. *)
Record Proc (W : Type) : Type := MkProc {
  world : W;
  clock : Z;
  events : list event
}.
Arguments MkProc {W}.
Arguments world {W}.
Arguments clock {W}.
Arguments events {W}.

(** [class Config] *)
Record Config : Type := MkConfig {
  url : string;
  password : string;
  download_dir : string;
  timeout : Z;
  download_wait : Z
}.

(** A [WebAutomation] object inside its process.  [self.driver] is the
    browser of the world; [self.logger] writes [Log] events. *)
Record Self (W : Type) : Type := MkSelf {
  config : Config;
  proc : Proc W
}.
Arguments MkSelf {W}.
Arguments config {W}.
Arguments proc {W}.

(** [pathlib]'s [/]: an absolute right operand replaces the left one. *)
Definition path_join (dir name : string) : string :=
  if Py.startswith_char "/" name then name else dir +:+ "/" +:+ name.

(** ** The script *)

Section Script.

Context {W : Type} (E : Env W).

(** *** Primitive statements *)

Definition emit (e : event) : M (Proc W) unit :=
  fun p => (Ret tt, MkProc (world p) (clock p) (events p ++ [e])).

(** Run one statement of the process inside a method. *)
Definition in_proc {A} (m : M (Proc W) A) : M (Self W) A :=
  fun s =>
    let (r, p) := m (proc s) in
    (r, MkSelf (config s) p).

(** Run a method of the object built around [cfg]. *)
Definition with_self {A} (cfg : Config) (m : M (Self W) A) : M (Proc W) A :=
  fun p =>
    let (r, s) := m (MkSelf cfg p) in
    (r, proc s).

Definition self_config : M (Self W) Config :=
  fun s => (Ret (config s), s).

Definition failure_of {A} (r : reply A) : option exn :=
  match r with Ok _ => None | Fail e => Some e end.

(** One call on the driver: the environment answers, the call and its
    fate are recorded, a failure is raised. *)
Definition drive {A} (c : call) (f : W -> reply A * W) : M (Self W) A :=
  fun s =>
    let p := proc s in
    let (r, w) := f (world p) in
    let p' := MkProc w (clock p) (events p ++ [Drv c (failure_of r)]) in
    (match r with Ok a => Ret a | Fail e => Raise e end, MkSelf (config s) p').

Definition logger_info (msg : string) : M (Self W) unit :=
  in_proc (emit (Log INFO msg)).

Definition logger_error (msg : string) : M (Self W) unit :=
  in_proc (emit (Log ERROR msg)).

(** [time.time()], in milliseconds *)
Definition time_time : M (Self W) Z :=
  fun s => (Ret (clock (proc s)), s).

(** [time.sleep(1)] *)
Definition time_sleep_1 : M (Self W) unit :=
  fun s =>
    let p := proc s in
    let d := 1000 + Z.of_N (oversleep E (clock p)) in
    (Ret tt, MkSelf (config s)
               (MkProc (world p) (clock p + d) (events p ++ [Sleep d]))).

(** [file_path.exists()] *)
Definition path_exists (path : string) : M (Self W) bool :=
  fun s =>
    let p := proc s in
    let r := fs_exists E path (world p) (clock p) in
    (match r with Ok b => Ret b | Fail e => Raise e end,
     MkSelf (config s)
       (MkProc (world p) (clock p) (events p ++ [Look path r]))).

(** [timeout or self.config.timeout]: a missing or zero argument gives
    way to the configured value. *)
Definition timeout_or (arg : option Z) (dflt : Z) : Z :=
  match arg with
  | Some t => if t =? 0 then dflt else t
  | None => dflt
  end.

(** Truth value of an [Optional[WebElement]]: an element is true,
    [None] is false. *)
Definition element_truthy (o : option element) : bool :=
  match o with Some _ => true | None => false end.

(** *** [class WebAutomation] *)

Definition _wait_for_element (by_ : By) (value : string)
    (timeout_arg : option Z) : M (Self W) (option element) :=
  try_except_cls TimeoutException
    (do cfg <- self_config;
     let t := timeout_or timeout_arg (timeout cfg) in
     do e <- drive (WaitPresence by_ value t) (drv_wait E by_ value t);
     ret (Some e))
    (do _ <- logger_error ("Timeout waiting for element: " +:+ value);
     ret None).

(** The [while] loop of [_verify_download]; [fuel] bounds the number of
    times its condition is evaluated. *)
Fixpoint verify_loop (fuel : nat) (file_path : string) (start_time : Z)
    : M (Self W) bool :=
  match fuel with
  | O => diverge
  | S fuel' =>
      do now <- time_time;
      do cfg <- self_config;
      if now - start_time <? download_wait cfg * 1000 then
        do found <- path_exists file_path;
        if found then ret true
        else
          do _ <- time_sleep_1;
          verify_loop fuel' file_path start_time
      else ret false
  end.

(** Each turn of the loop lasts a second or more, so the condition is
    evaluated [download_wait + 1] times at most. *)
Definition _verify_download (filename : string) : M (Self W) bool :=
  do cfg <- self_config;
  let file_path := path_join (download_dir cfg) filename in
  do start_time <- time_time;
  verify_loop (S (Z.to_nat (download_wait cfg))) file_path start_time.

Definition clients_marker : string := "//p[contains(text(), 'Clients')]".

Definition login : M (Self W) bool :=
  try_except
    (do probe <- _wait_for_element XPATH clients_marker (Some 2);
     if element_truthy probe then
       do _ <- logger_info "Already logged in";
       ret true
     else
       do _ <- logger_info "Logging in...";
       do cfg <- self_config;
       do _ <- drive (DriverGet (Some (url cfg))) (drv_get E (Some (url cfg)));
       do password_field <-
         _wait_for_element XPATH "/html/body/div/div/div/form/input[1]" None;
       do login_button <-
         _wait_for_element XPATH "/html/body/div/div/div/form/input[2]" None;
       match password_field, login_button with
       | Some password_field, Some login_button =>
           do _ <- drive (Clear password_field) (drv_clear E password_field);
           do cfg <- self_config;
           do _ <- drive (SendKeys password_field (password cfg))
                     (drv_send_keys E password_field (password cfg));
           do _ <- drive (Click login_button) (drv_click E login_button);
           do marker <- _wait_for_element XPATH clients_marker None;
           ret (element_truthy marker)
       | _, _ => ret false
       end)
    (fun e =>
       do _ <- logger_error ("Login failed: " +:+ exn_str e);
       ret false).

Definition name_row (name : string) : string :=
  "//span[text()='" +:+ name
  +:+ "']/ancestor::div[contains(@class, 'relative')]".

Definition add_name (name : string) : M (Self W) bool :=
  try_except
    (do logged_in <- login;
     if negb logged_in then ret false
     else
       do add_button <- _wait_for_element XPATH
           "/html/body/div/div/div/div[3]/div[1]/div[2]/button" None;
       match add_button with
       | None => ret false
       | Some add_button =>
           do _ <- drive (Click add_button) (drv_click E add_button);
           do input_box <- _wait_for_element XPATH
               "/html/body/div/div/div/div[4]/div/div[2]/div[1]/div/div[2]/div/p/input"
               None;
           match input_box with
           | None => ret false
           | Some input_box =>
               do _ <- drive (Clear input_box) (drv_clear E input_box);
               do _ <- drive (SendKeys input_box name)
                         (drv_send_keys E input_box name);
               do submit_button <- _wait_for_element XPATH
                   "/html/body/div/div/div/div[4]/div/div[2]/div[2]/button[1]"
                   None;
               match submit_button with
               | None => ret false
               | Some submit_button =>
                   do _ <- drive (Click submit_button)
                             (drv_click E submit_button);
                   do verification <-
                     _wait_for_element XPATH (name_row name) None;
                   let success := element_truthy verification in
                   do _ <- logger_info
                       ((if success then "Successfully added"
                         else "Failed to add") +:+ " " +:+ name);
                   ret success
               end
           end
       end)
    (fun e =>
       do _ <- logger_error
           ("Error adding " +:+ name +:+ ": " +:+ exn_str e);
       ret false).

Definition download_configuration (name : string) : M (Self W) bool :=
  try_except
    (do logged_in <- login;
     if negb logged_in then ret false
     else
       do person_element <- _wait_for_element XPATH (name_row name) None;
       match person_element with
       | None =>
           do _ <- logger_error ("Could not find element for " +:+ name);
           ret false
       | Some person_element =>
           do download_link <-
             drive (FindElement person_element XPATH
                      ".//a[@title='Download Configuration']")
                   (drv_find E person_element XPATH
                      ".//a[@title='Download Configuration']");
           do download_url <-
             drive (GetAttribute download_link "href")
                   (drv_attr E download_link "href");
           do _ <- logger_info ("Downloading configuration for " +:+ name);
           do _ <- drive (DriverGet download_url) (drv_get E download_url);
           do verified <- _verify_download (name +:+ ".conf");
           if verified then
             do _ <- logger_info
                 ("Successfully downloaded configuration for " +:+ name);
             ret true
           else
             do _ <- logger_error
                 ("Download verification failed for " +:+ name);
             ret false
       end)
    (fun e =>
       do _ <- logger_error
           ("Error downloading configuration for " +:+ name +:+ ": "
            +:+ exn_str e);
       ret false).

(** The [for] loop of [process_name_list] with its counter. *)
Fixpoint name_loop (func : string -> M (Self W) bool) (names : list string)
    (success_count : nat) : M (Self W) nat :=
  match names with
  | [] => ret success_count
  | name :: rest =>
      do ok <- func name;
      let success_count := if ok then S success_count else success_count in
      do _ <- in_proc (emit (PbarUpdate 1));
      name_loop func rest success_count
  end.

Definition operation_map (operation : string)
    : option (string -> M (Self W) bool) :=
  if String.eqb operation "add" then Some add_name
  else if String.eqb operation "download" then Some download_configuration
  else None.

Definition completed_message (operation : string) (success_count total : nat)
    : string :=
  Py.capitalize operation +:+ " completed: " +:+ Py.str_of_nat success_count
  +:+ "/" +:+ Py.str_of_nat total +:+ " successful".

Definition process_name_list (names : list string) (operation : string)
    : M (Self W) unit :=
  match operation_map operation with
  | None => logger_error ("Invalid operation: " +:+ operation)
  | Some func =>
      do _ <- in_proc (emit (PbarOpen (length names)
                               (Py.capitalize operation)));
      do success_count <-
        try_finally (name_loop func names 0%nat) (in_proc (emit PbarClose));
      logger_info (completed_message operation success_count (length names))
  end.

Definition close : M (Self W) unit :=
  try_except
    (drive DriverQuit (drv_quit E))
    (fun e => logger_error ("Error closing driver: " +:+ exn_str e)).

(** [WebAutomation.__init__]: create the download directory, start the
    browser.  Setting up the logger has no failure of its own. *)
Definition WebAutomation_init (cfg : Config) : M (Proc W) unit :=
  do _ <- (fun p =>
             let (r, w) := fs_mkdir E (download_dir cfg) (world p) in
             (match r with Ok a => Ret a | Fail e => Raise e end,
              MkProc w (clock p)
                (events p ++ [Mkdir (download_dir cfg) (failure_of r)])));
  (fun p =>
     let (r, w) := chrome_start E (download_dir cfg) (world p) in
     (match r with Ok a => Ret a | Fail e => Raise e end,
      MkProc w (clock p)
        (events p ++ [ChromeStart (download_dir cfg) (failure_of r)]))).

(** *** Module-level functions *)

(** [open(file_path, 'r')] followed by iteration over the file. *)
Definition open_lines (file_path : string) : M (Proc W) (list string) :=
  fun p =>
    (match read_text E file_path (world p) with
     | Ok content => Ret (Py.file_lines content)
     | Fail e => Raise e
     end, p).

(** [[line.strip() for line in file if line.strip()]] *)
Definition stripped_nonempty (lines : list string) : list string :=
  List.map Py.strip (List.filter (fun line => Py.truthy (Py.strip line)) lines).

Definition read_names_from_file (file_path : string)
    : M (Proc W) (list string) :=
  try_except
    (do lines <- open_lines file_path;
     ret (stripped_nonempty lines))
    (fun e =>
       do _ <- emit (RootLog ERROR
                       ("Error reading names from file: " +:+ exn_str e));
       ret []).

(** [key, value = line.split('=', 1)] *)
Definition unpack2 (pieces : list string) : outcome (string * string) :=
  match pieces with
  | [key; value] => Ret (key, value)
  | _ => Raise (Exn ValueError
                  "not enough values to unpack (expected 2, got 1)")
  end.

(** The [for] loop of [read_info] over the lines still to be read. *)
Fixpoint read_info_loop (lines : list string) (info : gmap string string)
    : outcome (gmap string string) :=
  match lines with
  | [] => Ret info
  | line :: rest =>
      let line := Py.strip line in
      if Py.truthy line && negb (Py.startswith_char "#" line) then
        match unpack2 (Py.split1 "=" line) with
        | Ret (key, value) =>
            read_info_loop rest (<[Py.strip key := Py.strip value]> info)
        | Raise e => Raise e
        | Diverge => Diverge
        end
      else read_info_loop rest info
  end.

Definition read_info (file_path : string)
    : M (Proc W) (gmap string string) :=
  do lines <- open_lines file_path;
  fun p => (read_info_loop lines ∅, p).

(** [info[key]] *)
Definition dict_get (info : gmap string string) (key : string)
    : M (Proc W) string :=
  match info !! key with
  | Some v => ret v
  | None => raise (Exn KeyError ("'" +:+ key +:+ "'"))
  end.

(** The command line as [argparse] delivers it: one of the four
    sub-commands with its argument, or none. *)
Inductive Args : Type :=
| AddList (filename : string)
| AddOne (name : string)
| DownloadList (filename : string)
| DownloadOne (name : string)
| NoCommand.

(** [Config(url=..., password=...)]: the other fields keep the defaults
    of the class. *)
Definition Config_new (url password : string) : Config :=
  MkConfig url password (path_join (cwd E) "config_files") 10 15.

(** The [if]/[elif] chain inside the [try] of [main]. *)
Definition dispatch (args : Args) : M (Self W) unit :=
  match args with
  | AddList filename | DownloadList filename =>
      do names <- in_proc (read_names_from_file filename);
      match names with
      | [] => logger_error "No valid names found in file"
      | _ :: _ =>
          let operation :=
            match args with AddList _ => "add" | _ => "download" end in
          process_name_list names operation
      end
  | AddOne name => do _ <- add_name name; ret tt
  | DownloadOne name => do _ <- download_configuration name; ret tt
  | NoCommand => in_proc (emit PrintHelp)
  end.

Definition main (args : Args) : M (Proc W) unit :=
  do info <- read_info "info.txt";
  do ip <- dict_get info "IP";
  let url := "http://" +:+ ip +:+ ":51821/" in
  do password <- dict_get info "password";
  let config := Config_new url password in
  do _ <- WebAutomation_init config;
  with_self config (try_finally (dispatch args) close).

(** [main] in two phases.  [startup] is everything before the [try]:
    it yields the configuration record; [session] is the [try] with its
    [finally].  [main_phases] below shows that [main] is the one
    followed by the other. *)
Definition startup : M (Proc W) Config :=
  do info <- read_info "info.txt";
  do ip <- dict_get info "IP";
  do password <- dict_get info "password";
  let config := Config_new ("http://" +:+ ip +:+ ":51821/") password in
  do _ <- WebAutomation_init config;
  ret config.

Definition session (args : Args) (cfg : Config) : M (Proc W) unit :=
  with_self cfg (try_finally (dispatch args) close).

(** The ways in which [startup] fails with the exception [e]: the
    configuration file cannot be read; one of its lines cannot be
    unpacked; it lacks [IP] or [password]; the download directory cannot
    be created; the browser does not start. *)
Definition startup_failure (p : Proc W) (e : exn) : Prop :=
  read_text E "info.txt" (world p) = Fail e
  \/ exists content,
       read_text E "info.txt" (world p) = Ok content
       /\ (read_info_loop (Py.file_lines content) ∅ = Raise e
           \/ exists info,
                read_info_loop (Py.file_lines content) ∅ = Ret info
                /\ ((info !! "IP" = None /\ e = Exn KeyError "'IP'")
                    \/ (is_Some (info !! "IP")
                        /\ info !! "password" = None
                        /\ e = Exn KeyError "'password'")
                    \/ exists ip pw,
                         info !! "IP" = Some ip
                         /\ info !! "password" = Some pw
                         /\ (fst (WebAutomation_init
                                    (Config_new
                                       ("http://" +:+ ip +:+ ":51821/") pw)
                                    p)
                             = Raise e))).

(** *** Vocabulary of the statements *)

(** The instants at which [_verify_download] looks for the file when it
    starts looking at instant [t]: [t] itself, then the end of each
    sleep. *)
Fixpoint poll_instant (t : Z) (k : nat) : Z :=
  match k with
  | O => t
  | S k' => poll_instant (t + 1000 + Z.of_N (oversleep E t)) k'
  end.

(** Running [func] on each name in turn, whatever it answers: the
    answers and the state reached. *)
Inductive batch_run (func : string -> M (Self W) bool)
    : list string -> Self W -> list bool -> Self W -> Prop :=
| batch_done s : batch_run func [] s [] s
| batch_next name rest s ok s1 s2 oks s3 :
    func name s = (Ret ok, s1) ->
    in_proc (emit (PbarUpdate 1)) s1 = (Ret tt, s2) ->
    batch_run func rest s2 oks s3 ->
    batch_run func (name :: rest) s (ok :: oks) s3.

End Script.


(** ** A simulated panel

    A small concrete environment on which the operations can be run: a
    panel with a login form and a list of clients, a file system given
    by the text of its files, and a download that lands at a chosen
    instant.  It instantiates the general theorems below. *)

Module Sim.

Record Panel : Type := MkPanel {
  authed : bool;
  clients : list string;
  typed : string
}.

Definition timed_out (value : string) : exn :=
  Exn TimeoutException ("Message: " +:+ value).

Definition wait (by_ : By) (value : string) (t : Z) (w : Panel)
    : reply element * Panel :=
  if String.eqb value clients_marker then
    (if authed w then Ok 1%nat else Fail (timed_out value), w)
  else if String.eqb value "/html/body/div/div/div/form/input[1]" then
    (if authed w then Fail (timed_out value) else Ok 2%nat, w)
  else if String.eqb value "/html/body/div/div/div/form/input[2]" then
    (if authed w then Fail (timed_out value) else Ok 3%nat, w)
  else if String.eqb value
            "/html/body/div/div/div/div[3]/div[1]/div[2]/button" then
    (Ok 4%nat, w)
  else if String.eqb value
            "/html/body/div/div/div/div[4]/div/div[2]/div[1]/div/div[2]/div/p/input"
  then (Ok 5%nat, w)
  else if String.eqb value
            "/html/body/div/div/div/div[4]/div/div[2]/div[2]/button[1]" then
    (Ok 6%nat, w)
  else if existsb (fun n => String.eqb value (name_row n)) (clients w) then
    (Ok 7%nat, w)
  else (Fail (timed_out value), w).

Definition click (e : element) (w : Panel) : reply unit * Panel :=
  if Nat.eqb e 3 then (Ok tt, MkPanel true (clients w) "")
  else if Nat.eqb e 6 then (Ok tt, MkPanel (authed w) (typed w :: clients w) "")
  else (Ok tt, w).

Definition send_keys (e : element) (text : string) (w : Panel)
    : reply unit * Panel :=
  (Ok tt, MkPanel (authed w) (clients w) (typed w +:+ text)).

Definition clear (e : element) (w : Panel) : reply unit * Panel :=
  (Ok tt, MkPanel (authed w) (clients w) "").

(** [files]: the text of each readable file; [lands]: the instant from
    which each downloaded file exists, if it ever does. *)
Definition env (files : string -> option string)
    (lands : string -> option Z) : Env Panel := {|
  cwd := "/home/user";
  read_text path _ :=
    match files path with
    | Some text => Ok text
    | None => Fail (Exn OSError
                      ("[Errno 2] No such file or directory: '" +:+ path
                       +:+ "'"))
    end;
  fs_mkdir _ w := (Ok tt, w);
  fs_exists path _ now :=
    match lands path with
    | Some t => Ok (t <=? now)
    | None => Ok false
    end;
  oversleep _ := 0%N;
  chrome_start _ w := (Ok tt, w);
  drv_get _ w := (Ok tt, w);
  drv_wait := wait;
  drv_find _ _ _ w := (Ok 8%nat, w);
  drv_attr _ _ w := (Ok (Some "http://10.0.0.1:51821/api/conf"), w);
  drv_click := click;
  drv_clear := clear;
  drv_send_keys := send_keys;
  drv_quit w := (Ok tt, w)
|}.

Definition nl : string := String Py.LF EmptyString.

Definition info_txt : string :=
  "# panel" +:+ nl +:+ "IP=10.0.0.1" +:+ nl +:+ "password = secret" +:+ nl.

Definition names_txt : string :=
  "alice" +:+ nl +:+ nl +:+ "bob " +:+ nl.

Definition files (path : string) : option string :=
  if String.eqb path "info.txt" then Some info_txt
  else if String.eqb path "names.txt" then Some names_txt
  else if String.eqb path "blank.txt" then Some ("  " +:+ nl +:+ nl)
  else None.

(** Configurations land three seconds after the clock's origin. *)
Definition lands (path : string) : option Z :=
  if String.eqb path "/home/user/config_files/alice.conf" then Some 3000
  else if String.eqb path "/home/user/config_files/bob.conf" then Some 3000
  else None.

Definition E0 : Env Panel := env files lands.

Definition fresh : Proc Panel := MkProc (MkPanel false [] "") 0 [].

Definition cfg0 : Config := Config_new E0 "http://10.0.0.1:51821/" "secret".

Definition self0 : Self Panel := MkSelf cfg0 fresh.

(** The same process, already logged in. *)
Definition self_authed : Self Panel :=
  MkSelf cfg0 (MkProc (MkPanel true [] "") 0 []).

(** A download that lands half a second before the wait is over. *)
Definition lands_late (path : string) : option Z :=
  if String.eqb path "/home/user/config_files/alice.conf" then Some 14500
  else None.

Definition E_late : Env Panel := env files lands_late.

(** A name list with a comment line. *)
Definition commented_txt : string :=
  "# office" +:+ nl +:+ "alice" +:+ nl.

Definition E_commented : Env Panel :=
  env (fun path =>
         if String.eqb path "names.txt" then Some commented_txt
         else files path) lands.

(** A configuration file that also sets the time-outs and the
    directory. *)
Definition tuned_info_txt : string :=
  "IP=10.0.0.1" +:+ nl +:+ "password=secret" +:+ nl +:+ "timeout=99" +:+ nl
  +:+ "download_wait=1" +:+ nl +:+ "download_dir=/tmp/conf" +:+ nl.

Definition E_tuned : Env Panel :=
  env (fun path =>
         if String.eqb path "info.txt" then Some tuned_info_txt
         else files path) lands.

(** A configuration file with both required keys and a line without
    [=]. *)
Definition stray_info_txt : string :=
  "IP=10.0.0.1" +:+ nl +:+ "password=secret" +:+ nl +:+ "verbose" +:+ nl.

Definition E_stray : Env Panel :=
  env (fun path =>
         if String.eqb path "info.txt" then Some stray_info_txt
         else files path) lands.


(** The configuration file without its comment line, under another
    name. *)
Definition bare_info_txt : string :=
  nl +:+ "IP=10.0.0.1" +:+ nl +:+ "password = secret" +:+ nl.

Definition E_two : Env Panel :=
  env (fun path =>
         if String.eqb path "bare.txt" then Some bare_info_txt
         else files path) lands.

(** The panel without its add button. *)
Definition E_no_button : Env Panel := {|
  cwd := cwd E0;
  read_text := read_text E0;
  fs_mkdir := fs_mkdir E0;
  fs_exists := fs_exists E0;
  oversleep := oversleep E0;
  chrome_start := chrome_start E0;
  drv_get := drv_get E0;
  drv_wait by_ value t w :=
    if String.eqb value
         "/html/body/div/div/div/div[3]/div[1]/div[2]/button"
    then (Fail (timed_out value), w)
    else wait by_ value t w;
  drv_find := drv_find E0;
  drv_attr := drv_attr E0;
  drv_click := drv_click E0;
  drv_clear := drv_clear E0;
  drv_send_keys := drv_send_keys E0;
  drv_quit := drv_quit E0
|}.

(** A file system on which the download directory may not be
    searched: every look for a file fails. *)
Definition denied : exn :=
  Exn OSError "[Errno 13] Permission denied".

Definition E_denied : Env Panel := {|
  cwd := cwd E0;
  read_text := read_text E0;
  fs_mkdir := fs_mkdir E0;
  fs_exists _ _ _ := Fail denied;
  oversleep := oversleep E0;
  chrome_start := chrome_start E0;
  drv_get := drv_get E0;
  drv_wait := drv_wait E0;
  drv_find := drv_find E0;
  drv_attr := drv_attr E0;
  drv_click := drv_click E0;
  drv_clear := drv_clear E0;
  drv_send_keys := drv_send_keys E0;
  drv_quit := drv_quit E0
|}.

(** A download directory that cannot be searched for the first three
    seconds and holds the file afterwards. *)
Definition E_blinded : Env Panel := {|
  cwd := cwd E0;
  read_text := read_text E0;
  fs_mkdir := fs_mkdir E0;
  fs_exists _ _ now := if now <? 3000 then Fail denied else Ok true;
  oversleep := oversleep E0;
  chrome_start := chrome_start E0;
  drv_get := drv_get E0;
  drv_wait := drv_wait E0;
  drv_find := drv_find E0;
  drv_attr := drv_attr E0;
  drv_click := drv_click E0;
  drv_clear := drv_clear E0;
  drv_send_keys := drv_send_keys E0;
  drv_quit := drv_quit E0
|}.

End Sim.

(** ** Vocabulary of the statements: text and traces *)

(** Every character is whitespace (so is the empty string). *)
Fixpoint all_space (s : string) : bool :=
  match s with
  | EmptyString => true
  | String c r => Py.isspace c && all_space r
  end.

Definition first_char (s : string) : option ascii :=
  match s with
  | EmptyString => None
  | String c _ => Some c
  end.

Fixpoint last_char (s : string) : option ascii :=
  match s with
  | EmptyString => None
  | String c r =>
      match last_char r with
      | None => Some c
      | Some d => Some d
      end
  end.

Definition not_space (o : option ascii) : Prop :=
  match o with
  | Some c => Py.isspace c = false
  | None => True
  end.

(** [name] is [line] without the whitespace around it. *)
Definition trimmed_of (line name : string) : Prop :=
  exists pre post,
    line = pre +:+ name +:+ post
    /\ all_space pre = true /\ all_space post = true
    /\ name <> EmptyString
    /\ not_space (first_char name) /\ not_space (last_char name).

(** A comment line, as [read_info] understands it. *)
Definition is_comment (line : string) : bool :=
  Py.startswith_char "#" (Py.strip line).

(** The name list in the words of the specification: one entry per
    non-blank, non-comment line, stripped. *)
Definition names_per_spec (lines : list string) : list string :=
  List.map Py.strip
    (List.filter (fun l => negb (all_space l) && negb (is_comment l)) lines).

(** A line of the configuration file that is neither blank nor a
    comment and has no [=]. *)
Definition malformed (line : string) : bool :=
  let l := Py.strip line in
  Py.truthy l && negb (Py.startswith_char "#" l)
  && negb (Py.contains_char "=" l).

(** A line of the configuration file that assigns [key]. *)
Definition assigns (key : string) (line : string) : bool :=
  let l := Py.strip line in
  Py.truthy l && negb (Py.startswith_char "#" l)
  && match Py.split1 "=" l with
     | [k; _] => String.eqb (Py.strip k) key
     | _ => false
     end.

Definition is_call (ev : event) : bool :=
  match ev with Drv _ _ => true | _ => false end.

Definition call_failed (ev : event) : bool :=
  match ev with Drv _ (Some _) => true | _ => false end.

(** The probe for the logged-in marker that opens [login], timing out. *)
Definition probe_timed_out (ev : event) : bool :=
  match ev with
  | Drv (WaitPresence XPATH value 2) (Some e) =>
      String.eqb value clients_marker
      && exn_class_eqb (exn_cls e) TimeoutException
  | _ => false
  end.

(** In the events of one operation: did a call on the browser fail,
    other than the opening probe timing out?  A wait for a required
    element that times out, and a look-up of the download link that
    finds nothing, are such failures. *)
Definition required_step_failed (evs : list event) : bool :=
  match List.filter is_call evs with
  | [] => false
  | first :: others =>
      (call_failed first && negb (probe_timed_out first))
      || existsb call_failed others
  end.

(** A wait for an element, other than the call that opens the
    operation, timed out. *)
Definition wait_timed_out (ev : event) : bool :=
  match ev with
  | Drv (WaitPresence _ _ _) (Some e) =>
      exn_class_eqb (exn_cls e) TimeoutException
  | _ => false
  end.

Definition required_element_missing (evs : list event) : bool :=
  existsb wait_timed_out (List.tl (List.filter is_call evs)).

(** An interaction with the page: anything but closing the browser. *)
Definition touches_page (ev : event) : bool :=
  match ev with
  | Drv DriverQuit _ => false
  | Drv _ _ => true
  | _ => false
  end.

Definition sends_keys (ev : event) : bool :=
  match ev with Drv (SendKeys _ _) _ => true | _ => false end.

Definition navigates (ev : event) : bool :=
  match ev with Drv (DriverGet _) _ => true | _ => false end.

(** The file [_verify_download] looks for, the instants of its window,
    and the presence of the file at an instant. *)
Definition expected_file {W} (s : Self W) (filename : string) : string :=
  path_join (download_dir (config s)) filename.

Definition in_window {W} (s : Self W) (t : Z) : Prop :=
  clock (proc s) <= t < clock (proc s) + download_wait (config s) * 1000.

Definition file_present {W} (E : Env W) (s : Self W) (filename : string)
    (t : Z) : Prop :=
  fs_exists E (expected_file s filename) (world (proc s)) t = Ok true.

(** [exists()] answers false at that instant. *)
Definition file_absent {W} (E : Env W) (s : Self W) (filename : string)
    (t : Z) : Prop :=
  fs_exists E (expected_file s filename) (world (proc s)) t = Ok false.

(** [exists()] raises [e] at that instant. *)
Definition look_fails {W} (E : Env W) (s : Self W) (filename : string)
    (t : Z) (e : exn) : Prop :=
  fs_exists E (expected_file s filename) (world (proc s)) t = Fail e.

(** From [s] to [s'] the object kept its configuration and the process
    produced the events [out]. *)
Definition extends {W} (s s' : Self W) (out : list event) : Prop :=
  config s' = config s /\ events (proc s') = (events (proc s) ++ out)%list.

(** However the method ends, it leaves [self.config] as it found it
    and only adds to the trace. *)
Definition keeps_config {W A} (m : M (Self W) A) : Prop :=
  forall s r s', m s = (r, s') -> exists out, extends s s' out.

Definition is_sleep (ev : event) : bool :=
  match ev with Sleep _ => true | _ => false end.

(** A look for the file, or a sleep: what [_verify_download] does. *)
Definition look_or_sleep (ev : event) : bool :=
  match ev with Sleep _ => true | Look _ _ => true | _ => false end.

Definition count_true (l : list bool) : nat :=
  length (List.filter (fun b => b) l).

(** ** Vocabulary of the further properties *)

(** A line of the configuration file that is neither blank nor a
    comment: the loop of [read_info] acts on these only. *)
Definition relevant (line : string) : bool :=
  negb (all_space line) && negb (is_comment line).

(** [line] reads [key=value]: it is relevant, the key is the stripped
    text before its first [=], the value the stripped text after it. *)
Definition assignment (line key value : string) : Prop :=
  relevant line = true
  /\ exists k v,
       Py.strip line = k +:+ String "=" v
       /\ Py.contains_char "=" k = false
       /\ key = Py.strip k
       /\ value = Py.strip v.

(** Started with the configuration [cfg], the method keeps it and adds
    to the trace only events that [P] accepts, however it ends. *)
Definition emits_only {W A} (cfg : Config) (P : event -> bool)
    (m : M (Self W) A) : Prop :=
  forall s r s',
    config s = cfg -> m s = (r, s') ->
    exists out, extends s s' out /\ forallb P out = true.

(** What an operation on the names [names] may do: log, sleep, call the
    browser; but wait only for 2 seconds or for the configured time-out,
    type only the configured password or one of the names, and neither
    start nor quit the browser, nor move the progress bar. *)
Definition op_event (names : list string) (cfg : Config) (ev : event)
    : bool :=
  match ev with
  | Drv (SendKeys _ text) _ =>
      String.eqb text (password cfg) || existsb (String.eqb text) names
  | Drv (WaitPresence _ _ t) _ => (t =? 2) || (t =? timeout cfg)
  | Drv DriverQuit _ => false
  | Drv _ _ => true
  | Log _ _ => true
  | Sleep _ => true
  | Look _ _ => true
  | _ => false
  end.

(** What the dispatch of [main] may do: anything but create the
    download directory, start the browser or quit it. *)
Definition session_event (ev : event) : bool :=
  match ev with
  | Drv DriverQuit _ => false
  | Mkdir _ _ => false
  | ChromeStart _ _ => false
  | _ => true
  end.

Definition typed_text (ev : event) : option string :=
  match ev with
  | Drv (SendKeys _ text) _ => Some text
  | _ => None
  end.

Definition wait_timeout (ev : event) : option Z :=
  match ev with
  | Drv (WaitPresence _ _ t) _ => Some t
  | _ => None
  end.

Definition is_pbar_update (ev : event) : bool :=
  match ev with PbarUpdate _ => true | _ => false end.

Definition is_quit (ev : event) : bool :=
  match ev with Drv DriverQuit _ => true | _ => false end.

(** The browser started. *)
Definition is_started (ev : event) : bool :=
  match ev with ChromeStart _ None => true | _ => false end.

(** ** Vocabulary of the statements: what the environment answers *)

(** [_verify_download] looks for the file at [now], then at the end of
    each sleep, as long as less than [window] has passed since [start].
    [answer] is the first answer of [exists()] that is not false, at a
    look inside the window. *)
Definition first_look {W} (E : Env W) (path : string) (w : W)
    (start now window : Z) (answer : reply bool) : Prop :=
  exists k,
    poll_instant E now k - start < window
    /\ fs_exists E path w (poll_instant E now k) = answer
    /\ forall j,
         (j < k)%nat -> fs_exists E path w (poll_instant E now j) = Ok false.

(** What [_verify_download] may end with, given the answers of
    [exists()] at its looks: true or an exception, as the first answer
    that is not false; false when every look of the window answers
    false. *)
Definition verdict {W} (E : Env W) (path : string) (w : W)
    (start now window : Z) (r : outcome bool) : Prop :=
  match r with
  | Ret true => first_look E path w start now window (Ok true)
  | Ret false =>
      forall k,
        poll_instant E now k - start < window ->
        fs_exists E path w (poll_instant E now k) = Ok false
  | Raise e => first_look E path w start now window (Fail e)
  | Diverge => False
  end.

(** Whenever it is waited for, the element is not found in time. *)
Definition never_located {W} (E : Env W) (value : string) : Prop :=
  forall t w,
    exists x w',
      drv_wait E XPATH value t w = (Fail x, w')
      /\ exn_cls x = TimeoutException.








(** ** Vocabulary of the statements: errors and their log lines *)

(** A call on the browser, or a look for a file, that raised. *)
Definition is_error (ev : event) : bool :=
  match ev with
  | Drv _ (Some _) => true
  | Look _ (Fail _) => true
  | _ => false
  end.

Definition is_error_log (ev : event) : bool :=
  match ev with Log ERROR _ => true | _ => false end.

(** Every error of the trace is followed at once by an error line of
    the script's logger. *)
Fixpoint errors_logged (evs : list event) : bool :=
  match evs with
  | [] => true
  | ev :: rest =>
      (negb (is_error ev)
       || match rest with
          | next :: _ => is_error_log next
          | [] => false
          end)
      && errors_logged rest
  end.

(** The trace ends with an error that is still to be logged; the
    errors before it are logged. *)
Definition error_pending (evs : list event) : Prop :=
  exists pre ev,
    evs = pre ++ [ev] /\ is_error ev = true /\ errors_logged pre = true.

(** How a piece of the script stands with its errors when it ends with
    [r] having added [out] to the trace: if it raises, the error it
    raises is the last event and is still to be logged; otherwise every
    error is logged. *)
Definition settled {A} (r : outcome A) (out : list event) : Prop :=
  match r with
  | Raise _ => error_pending out
  | _ => errors_logged out = true
  end.

(** The method logs its errors: what it adds to the trace has every
    error logged, but the one it raises, if it raises. *)
Definition logs_errors {W A} (m : M (Self W) A) : Prop :=
  forall s r s',
    m s = (r, s') -> exists out, extends s s' out /\ settled r out.

(** The handler begins with an error line, and logs its own errors. *)
Definition handles {W A} (m : M (Self W) A) : Prop :=
  forall s r s',
    m s = (r, s') ->
    exists msg out, extends s s' (Log ERROR msg :: out) /\ settled r out.

(** A call on the browser or a line of the script's logger: all that
    [login] and [add_name] add to the trace. *)
Definition call_or_log (ev : event) : bool :=
  match ev with Drv _ _ => true | Log _ _ => true | _ => false end.

(** A look for the file that raised. *)
Definition look_failed (ev : event) : bool :=
  match ev with Look _ (Fail _) => true | _ => false end.

(** In the events of one operation: did a step fail?  A call on the
    browser that raised, the opening probe timing out apart, or a look
    for the downloaded file that raised. *)
Definition operation_failed (evs : list event) : bool :=
  required_step_failed evs || existsb look_failed evs.

(** The line that [close] logs when the browser could not be asked to
    quit. *)
Definition quit_report (failure : option exn) : list event :=
  match failure with
  | None => []
  | Some e => [Log ERROR ("Error closing driver: " +:+ exn_str e)]
  end.

(** What a list sub-command does once [startup] is over, from the
    process [p1] to the object [s1] that [close] receives.  It reads
    the names: the stripped non-blank lines of the file, or none, with
    an error line of the root logger, when the file cannot be read.
    Without names it logs an error and stops there.  With names it
    opens the progress bar, runs [func] on every name in turn, each run
    starting where the one before ended, closes the bar and logs the
    count. *)
Definition list_session {W} (E : Env W) (operation : string)
    (func : string -> M (Self W) bool) (filename : string)
    (cfg : Config) (p1 : Proc W) (s1 : Self W) : Prop :=
  exists names p0 out,
    read_names_from_file E filename p1 = (Ret names, p0)
    /\ events p0 = events p1 ++ out
    /\ match read_text E filename (world p1) with
       | Ok content =>
           names = stripped_nonempty (Py.file_lines content) /\ out = []
       | Fail e =>
           names = []
           /\ out = [RootLog ERROR
                       ("Error reading names from file: " +:+ exn_str e)]
       end
    /\ match names with
       | [] =>
           extends (MkSelf cfg p0) s1
             [Log ERROR "No valid names found in file"]
       | _ :: _ =>
           exists oks sa sb,
             extends (MkSelf cfg p0) sa
               [PbarOpen (length names) (Py.capitalize operation)]
             /\ batch_run func names sa oks sb
             /\ length oks = length names
             /\ extends sb s1
                  [PbarClose;
                   Log INFO (completed_message operation (count_true oks)
                               (length names))]
       end.

(** ** Facts about the text primitives *)

Section TextFacts.

Lemma append_nil_l (s : string) : EmptyString +:+ s = s.
Proof. reflexivity. Qed.

Lemma append_cons (c : ascii) (a b : string) :
  String c a +:+ b = String c (a +:+ b).
Proof. reflexivity. Qed.

Lemma append_assoc (a b c : string) : (a +:+ b) +:+ c = a +:+ (b +:+ c).
Proof.
  induction a as [|x a IH]; [reflexivity |].
  rewrite !append_cons. now rewrite IH.
Qed.

Lemma all_space_app (a b : string) :
  all_space (a +:+ b) = all_space a && all_space b.
Proof.
  induction a as [|c a IH]; [reflexivity |].
  rewrite append_cons. simpl. rewrite IH. now destruct (Py.isspace c).
Qed.

Lemma lstrip_decomp (s : string) :
  exists pre,
    s = pre +:+ Py.lstrip s /\ all_space pre = true
    /\ not_space (first_char (Py.lstrip s)).
Proof.
  induction s as [|c r (pre & Heq & Hpre & Hfirst)]; simpl.
  - exists EmptyString. repeat split.
  - destruct (Py.isspace c) eqn:Hc.
    + exists (String c pre). rewrite append_cons. simpl.
      rewrite Hc, Hpre, <- Heq. repeat split. exact Hfirst.
    + exists EmptyString. repeat split. exact Hc.
Qed.

Lemma rstrip_decomp (s : string) :
  exists post,
    s = Py.rstrip s +:+ post /\ all_space post = true
    /\ not_space (last_char (Py.rstrip s)).
Proof.
  induction s as [|c r (post & Heq & Hpost & Hlast)]; simpl.
  - exists EmptyString. repeat split.
  - destruct (Py.rstrip r) as [|d r'] eqn:Hr.
    + rewrite append_nil_l in Heq. subst post.
      destruct (Py.isspace c) eqn:Hc.
      * exists (String c r). simpl. rewrite Hc, Hpost. repeat split.
      * exists r. repeat split; [exact Hpost | exact Hc].
    + exists post. rewrite append_cons, <- Heq.
      split; [reflexivity |]. split; [exact Hpost |].
      simpl in Hlast |- *. destruct (last_char r'); exact Hlast.
Qed.

Lemma lstrip_empty (s : string) :
  Py.lstrip s = EmptyString <-> all_space s = true.
Proof.
  induction s as [|c r IH]; simpl; [tauto |].
  destruct (Py.isspace c); simpl; [exact IH |].
  split; discriminate.
Qed.

Lemma rstrip_empty (s : string) :
  Py.rstrip s = EmptyString <-> all_space s = true.
Proof.
  induction s as [|c r IH]; simpl; [tauto |].
  destruct (Py.rstrip r) as [|d r'] eqn:Hr.
  - destruct (Py.isspace c); simpl.
    + split; intros _; [now apply IH | reflexivity].
    + split; discriminate.
  - split; [discriminate |].
    intros H. apply andb_prop in H as [_ H]. apply IH in H. discriminate.
Qed.

Lemma strip_empty (s : string) :
  Py.strip s = EmptyString <-> all_space s = true.
Proof.
  unfold Py.strip. rewrite lstrip_empty.
  destruct (rstrip_decomp s) as (post & Heq & Hpost & _).
  rewrite Heq at 2. rewrite all_space_app, Hpost, andb_true_r. tauto.
Qed.

Lemma truthy_strip (s : string) :
  Py.truthy (Py.strip s) = negb (all_space s).
Proof.
  destruct (all_space s) eqn:H.
  - apply strip_empty in H. now rewrite H.
  - destruct (Py.strip s) eqn:Hs; [| reflexivity].
    apply strip_empty in Hs. congruence.
Qed.

Lemma last_char_lstrip (s : string) :
  Py.lstrip s <> EmptyString -> last_char (Py.lstrip s) = last_char s.
Proof.
  induction s as [|c r IH]; simpl; [congruence |].
  destruct (Py.isspace c); [| reflexivity].
  intros H. rewrite (IH H).
  destruct (last_char r) eqn:Hl; [reflexivity |].
  exfalso. apply H. destruct r; [reflexivity | simpl in Hl].
  destruct (last_char r); discriminate.
Qed.

(** [strip] removes whitespace from both ends and nothing else. *)
Lemma strip_trimmed (line : string) :
  all_space line = false -> trimmed_of line (Py.strip line).
Proof.
  intros Hns.
  assert (Hne : Py.strip line <> EmptyString).
  { intros H. apply strip_empty in H. congruence. }
  destruct (rstrip_decomp line) as (post & Heq & Hpost & Hlast).
  destruct (lstrip_decomp (Py.rstrip line)) as (pre & Heq' & Hpre & Hfirst).
  exists pre, post. fold (Py.strip line) in Heq', Hfirst.
  repeat split; try assumption.
  - rewrite <- append_assoc, <- Heq'. exact Heq.
  - unfold Py.strip in *. now rewrite last_char_lstrip.
Qed.

Lemma split1_without (sep : ascii) (s : string) :
  Py.contains_char sep s = false -> Py.split1 sep s = [s].
Proof.
  induction s as [|c r IH]; simpl; [reflexivity |].
  destruct (ascii_dec c sep); [discriminate |].
  intros H. now rewrite (IH H).
Qed.

Lemma split1_with (sep : ascii) (s : string) :
  Py.contains_char sep s = true ->
  exists a b, Py.split1 sep s = [a; b] /\ s = a +:+ String sep b.
Proof.
  induction s as [|c r IH]; simpl; [discriminate |].
  destruct (ascii_dec c sep) as [->|Hne].
  - intros _. exists EmptyString, r. split; reflexivity.
  - intros H. destruct (IH H) as (a & b & Hs & Hr).
    exists (String c a), b. rewrite Hs. split; [reflexivity |].
    rewrite append_cons. now rewrite <- Hr.
Qed.

End TextFacts.

(** ** The file readers *)

Section FileReaders.

Context {W : Type} (E : Env W).

Lemma stripped_nonempty_trimmed (lines : list string) :
  Forall2 trimmed_of
    (List.filter (fun l => negb (all_space l)) lines)
    (stripped_nonempty lines).
Proof.
  unfold stripped_nonempty.
  induction lines as [|l ls IH]; simpl; [constructor |].
  rewrite truthy_strip. destruct (all_space l) eqn:Hl; simpl; [exact IH |].
  constructor; [now apply strip_trimmed | exact IH].
Qed.

Lemma read_names_readable (path : string) (p : Proc W) (content : string) :
  read_text E path (world p) = Ok content ->
  read_names_from_file E path p
  = (Ret (stripped_nonempty (Py.file_lines content)), p).
Proof.
  intros H. unfold read_names_from_file, try_except, bind, open_lines, ret.
  now rewrite H.
Qed.

Lemma read_names_unreadable (path : string) (p : Proc W) (e : exn) :
  read_text E path (world p) = Fail e ->
  read_names_from_file E path p
  = (Ret [],
     MkProc (world p) (clock p)
       (events p
        ++ [RootLog ERROR ("Error reading names from file: " +:+ exn_str e)])).
Proof.
  intros H.
  unfold read_names_from_file, try_except, bind, open_lines, ret, emit.
  now rewrite H.
Qed.


Lemma read_info_loop_malformed (lines : list string) :
  Exists (fun l => malformed l = true) lines ->
  forall info, exists e,
    read_info_loop lines info = Raise e /\ exn_cls e = ValueError.
Proof.
  induction 1 as [l ls Hbad | l ls _ IH]; intros info; simpl.
  - unfold malformed in Hbad.
    apply andb_prop in Hbad as [Hgo Hno].
    rewrite Hgo. apply negb_true_iff in Hno.
    rewrite (split1_without _ _ Hno). simpl. eauto.
  - destruct (Py.truthy (Py.strip l)
              && negb (Py.startswith_char "#" (Py.strip l))); [| apply IH].
    destruct (Py.contains_char "=" (Py.strip l)) eqn:Heq.
    + destruct (split1_with _ _ Heq) as (a & b & -> & _). simpl. apply IH.
    + rewrite (split1_without _ _ Heq). simpl. eauto.
Qed.

(** C3, as amended.  When the file can be read, [read_names_from_file]
    returns, without raising and without any other effect, one entry per
    line that is not blank (not made of whitespace only), in file order;
    each entry is its line without the whitespace around it, so it is
    not empty and neither begins nor ends with whitespace.  Lines that
    begin with [#] are not blank and are returned like any other. *)
Theorem read_names_one_per_nonblank_line
    (path : string) (p : Proc W) (content : string) :
  read_text E path (world p) = Ok content ->
  exists names,
    read_names_from_file E path p = (Ret names, p)
    /\ Forall2 trimmed_of
         (List.filter (fun l => negb (all_space l)) (Py.file_lines content))
         names.
Proof.
  intros H. eexists. split; [exact (read_names_readable _ _ _ H) |].
  apply stripped_nonempty_trimmed.
Qed.

(** C10.  A configuration file with a line that, once stripped, is not
    empty, does not begin with [#] and has no [=] makes [read_info]
    raise [ValueError]: the caller gets no dictionary, whatever the
    other lines hold. *)
Theorem read_info_raises_on_line_without_equals
    (path : string) (p : Proc W) (content : string) :
  read_text E path (world p) = Ok content ->
  Exists (fun l => malformed l = true) (Py.file_lines content) ->
  exists e,
    read_info E path p = (Raise e, p) /\ exn_cls e = ValueError.
Proof.
  intros Hread Hbad.
  destruct (read_info_loop_malformed _ Hbad ∅) as (e & He & Hcls).
  exists e. split; [| exact Hcls].
  unfold read_info, bind, open_lines. rewrite Hread. simpl.
  now rewrite He.
Qed.

End FileReaders.

(** The sentence of the specification, on its own example: the text
    "a", empty line, "b " gives the names "a" and "b". *)
Example read_names_example :
  stripped_nonempty
    (Py.file_lines ("a" +:+ Sim.nl +:+ Sim.nl +:+ "b " +:+ Sim.nl))
  = ["a"; "b"].
Proof. reflexivity. Qed.

Lemma read_names_one_per_nonblank_line_witness :
  exists names,
    read_names_from_file Sim.E0 "names.txt" Sim.fresh = (Ret names, Sim.fresh)
    /\ Forall2 trimmed_of
         (List.filter (fun l => negb (all_space l))
            (Py.file_lines Sim.names_txt))
         names.
Proof.
  apply (read_names_one_per_nonblank_line Sim.E0 "names.txt" Sim.fresh
           Sim.names_txt).
  reflexivity.
Defined.

(** C3 as the specification words it fails on a list with a comment
    line: the line is returned as a name, where the specification's
    reading of the file drops it. *)
Lemma read_names_keeps_comment_lines :
  fst (read_names_from_file Sim.E_commented "names.txt" Sim.fresh)
  = Ret ["# office"; "alice"]
  /\ names_per_spec (Py.file_lines Sim.commented_txt) = ["alice"]
  /\ fst (read_names_from_file Sim.E_commented "names.txt" Sim.fresh)
     <> Ret (names_per_spec (Py.file_lines Sim.commented_txt)).
Proof.
  split; [reflexivity |]. split; [reflexivity |].
  vm_compute. discriminate.
Qed.

Lemma read_info_raises_on_line_without_equals_witness :
  exists e,
    read_info Sim.E_stray "info.txt" Sim.fresh = (Raise e, Sim.fresh)
    /\ exn_cls e = ValueError.
Proof.
  apply (read_info_raises_on_line_without_equals Sim.E_stray "info.txt"
           Sim.fresh Sim.stray_info_txt).
  - reflexivity.
  - vm_compute. do 2 apply Exists_cons_tl. apply Exists_cons_hd. reflexivity.
Defined.

(** ** Facts about the monad *)

Section MonadFacts.

Context {S : Type}.

Lemma returns_halts {A} (m : M S A) : returns m -> halts m.
Proof. intros H s. destruct (H s) as (a & s' & ->). discriminate. Qed.

Lemma halts_ret {A} (a : A) : halts (@ret S A a).
Proof. intros s. discriminate. Qed.

Lemma halts_raise {A} (e : exn) : halts (@raise S A e).
Proof. intros s. discriminate. Qed.

Lemma halts_bind {A B} (m : M S A) (k : A -> M S B) :
  halts m -> (forall a, halts (k a)) -> halts (bind m k).
Proof.
  intros Hm Hk s. unfold bind. specialize (Hm s).
  destruct (m s) as [[a|e|] s1]; simpl in *;
    [apply Hk | discriminate | congruence].
Qed.

Lemma halts_try_except {A} (body : M S A) (handler : exn -> M S A) :
  halts body -> (forall e, halts (handler e)) ->
  halts (try_except body handler).
Proof.
  intros Hb Hh s. unfold try_except. specialize (Hb s).
  destruct (body s) as [[a|e|] s1]; simpl in *;
    [discriminate | apply Hh | congruence].
Qed.

Lemma halts_try_except_cls {A} cls (body handler : M S A) :
  halts body -> halts handler -> halts (try_except_cls cls body handler).
Proof.
  intros Hb Hh s. unfold try_except_cls. specialize (Hb s).
  destruct (body s) as [[a|e|] s1]; simpl in *;
    [discriminate | | congruence].
  destruct (exn_class_eqb (exn_cls e) cls); [apply Hh | discriminate].
Qed.

Lemma halts_try_finally {A} (body : M S A) (fin : M S unit) :
  halts body -> halts fin -> halts (try_finally body fin).
Proof.
  intros Hb Hf s. unfold try_finally. specialize (Hb s).
  destruct (body s) as [[a|e|] s1]; simpl in *; [| | congruence];
    specialize (Hf s1); destruct (fin s1) as [[[]|e'|] s2]; simpl in *;
      congruence.
Qed.

Lemma returns_ret {A} (a : A) : returns (@ret S A a).
Proof. intros s. now exists a, s. Qed.

Lemma returns_bind {A B} (m : M S A) (k : A -> M S B) :
  returns m -> (forall a, returns (k a)) -> returns (bind m k).
Proof.
  intros Hm Hk s. unfold bind. destruct (Hm s) as (a & s1 & ->). apply Hk.
Qed.

(** A handler that always returns makes the whole [try] return, as long
    as the body ends. *)
Lemma returns_try_except {A} (body : M S A) (handler : exn -> M S A) :
  halts body -> (forall e, returns (handler e)) ->
  returns (try_except body handler).
Proof.
  intros Hb Hh s. unfold try_except. specialize (Hb s).
  destruct (body s) as [[a|e|] s1]; simpl in *;
    [now exists a, s1 | apply Hh | congruence].
Qed.

Lemma returns_try_finally {A} (body : M S A) (fin : M S unit) :
  returns body -> returns fin -> returns (try_finally body fin).
Proof.
  intros Hb Hf s. unfold try_finally.
  destruct (Hb s) as (a & s1 & ->). destruct (Hf s1) as ([] & s2 & ->).
  now exists a, s2.
Qed.

Lemma bind_ret_inv {A B} (m : M S A) (k : A -> M S B) s b s' :
  bind m k s = (Ret b, s') ->
  exists a s1, m s = (Ret a, s1) /\ k a s1 = (Ret b, s').
Proof.
  unfold bind. destruct (m s) as [[a|e|] s1]; intros H;
    [now exists a, s1 | discriminate | discriminate].
Qed.

(** A [try] whose handler answers [false] returns [true] only when its
    body does. *)
Lemma try_except_true_inv (body : M S bool) (handler : exn -> M S bool) s s' :
  (forall e s1 b s2, handler e s1 = (Ret b, s2) -> b = false) ->
  try_except body handler s = (Ret true, s') ->
  body s = (Ret true, s').
Proof.
  intros Hh. unfold try_except. destruct (body s) as [[a|e|] s1]; intros H;
    [exact H | apply Hh in H; discriminate | discriminate].
Qed.

End MonadFacts.

(** ** Download verification *)

Section Verify.

Context {W : Type} (E : Env W).

Lemma poll_instant_ge (k : nat) : forall t, t <= poll_instant E t k.
Proof.
  induction k as [|k IH]; intros t; simpl; [lia |].
  specialize (IH (t + 1000 + Z.of_N (oversleep E t))). lia.
Qed.

Lemma first_look_now path w start now window answer :
  now - start < window ->
  fs_exists E path w now = answer ->
  first_look E path w start now window answer.
Proof.
  intros Hin Hlook. exists 0%nat. cbn [poll_instant].
  repeat split; try assumption. intros j Hj. lia.
Qed.

Lemma first_look_later path w start now window answer :
  fs_exists E path w now = Ok false ->
  first_look E path w start
    (now + 1000 + Z.of_N (oversleep E now)) window answer ->
  first_look E path w start now window answer.
Proof.
  intros Hnow (k & Hk & Hlook & Hbefore).
  exists (Datatypes.S k). cbn [poll_instant].
  repeat split; try assumption.
  intros [|j] Hj; [exact Hnow |]. cbn [poll_instant]. apply Hbefore. lia.
Qed.

(** What one run of the loop does, from any state in which the fuel
    covers what is left of the window. *)
Lemma verify_loop_polls (path : string) (start : Z) (fuel : nat) :
  forall s : Self W,
    (1 <= fuel)%nat ->
    download_wait (config s) * 1000 - (clock (proc s) - start)
    <= 1000 * (Z.of_nat fuel - 1) ->
    exists r s',
      verify_loop E fuel path start s = (r, s')
      /\ config s' = config s
      /\ world (proc s') = world (proc s)
      /\ (exists evs, events (proc s') = events (proc s) ++ evs
                      /\ forallb look_or_sleep evs = true)
      /\ verdict E path (world (proc s)) start (clock (proc s))
           (download_wait (config s) * 1000) r.
Proof.
  induction fuel as [|fuel IH]; intros s Hfuel Hleft; [lia |].
  destruct s as [cfg [w now evs]]. simpl in Hleft.
  cbn [verify_loop]. unfold bind at 1, time_time at 1. cbn [proc clock].
  unfold bind at 1, self_config at 1. cbn [config].
  destruct (now - start <? download_wait cfg * 1000) eqn:Hin.
  - apply Z.ltb_lt in Hin.
    unfold bind at 1, path_exists at 1. cbn [proc clock world events config].
    destruct (fs_exists E path w now) as [[|]|e] eqn:Hlook.
    + eexists (Ret true), _. split; [reflexivity |].
      cbn [config proc world events clock].
      repeat split; try reflexivity.
      * eexists [_]. split; reflexivity.
      * now apply first_look_now.
    + unfold bind at 1, time_sleep_1 at 1.
      cbn [proc clock world events config].
      set (d := 1000 + Z.of_N (oversleep E now)).
      edestruct (IH (MkSelf cfg
                       (MkProc w (now + d)
                          ((evs ++ [Look path (Ok false)]) ++ [Sleep d]))))
        as (r & s' & Hrun & Hcfg & Hw & (evs' & Hevs & Hsl) & Hr).
      { lia. }
      { simpl. subst d. lia. }
      exists r, s'. split; [exact Hrun |].
      cbn [config proc world events clock] in *.
      repeat split; try assumption.
      * exists (Look path (Ok false) :: Sleep d :: evs').
        rewrite Hevs, <- !app_assoc. split; [reflexivity |]. exact Hsl.
      * subst d.
        replace (now + (1000 + Z.of_N (oversleep E now)))
          with (now + 1000 + Z.of_N (oversleep E now)) in Hr by lia.
        destruct r as [[|]|e|]; cbn [verdict] in *.
        -- now apply first_look_later.
        -- intros [|k] Hk; [exact Hlook |]. now apply Hr.
        -- now apply first_look_later.
        -- exact Hr.
    + eexists (Raise e), _. split; [reflexivity |].
      cbn [config proc world events clock].
      repeat split; try reflexivity.
      * eexists [_]. split; reflexivity.
      * now apply first_look_now.
  - apply Z.ltb_ge in Hin.
    eexists (Ret false), _. split; [reflexivity |].
    cbn [config proc world events clock].
    repeat split; try reflexivity.
    + exists []. now rewrite app_nil_r.
    + intros k Hk. pose proof (poll_instant_ge k now). lia.
Qed.

Lemma verify_download_spec (filename : string) (s : Self W) :
  exists r s',
    _verify_download E filename s = (r, s')
    /\ config s' = config s
    /\ world (proc s') = world (proc s)
    /\ (exists evs, events (proc s') = events (proc s) ++ evs
                    /\ forallb look_or_sleep evs = true)
    /\ verdict E (expected_file s filename) (world (proc s))
         (clock (proc s)) (clock (proc s))
         (download_wait (config s) * 1000) r.
Proof.
  unfold _verify_download, expected_file.
  unfold bind at 1, self_config at 1. unfold bind at 1, time_time at 1.
  apply verify_loop_polls; lia.
Qed.

Lemma first_look_in_window filename (s : Self W) answer :
  first_look E (expected_file s filename) (world (proc s))
    (clock (proc s)) (clock (proc s)) (download_wait (config s) * 1000)
    answer ->
  exists t,
    in_window s t
    /\ fs_exists E (expected_file s filename) (world (proc s)) t = answer.
Proof.
  intros (k & Hk & Hlook & _).
  exists (poll_instant E (clock (proc s)) k). split; [| exact Hlook].
  unfold in_window. pose proof (poll_instant_ge k (clock (proc s))). lia.
Qed.

(** The first answer that is not false is one answer. *)
Lemma first_look_unique path w start now window a b :
  first_look E path w start now window a ->
  first_look E path w start now window b ->
  a <> Ok false -> b <> Ok false -> a = b.
Proof.
  intros (k & _ & Ha & Hka) (j & _ & Hb & Hjb) Hna Hnb.
  destruct (lt_eq_lt_dec k j) as [[Hlt|Heq]|Hgt].
  - specialize (Hjb k Hlt). congruence.
  - subst. congruence.
  - specialize (Hka j Hgt). congruence.
Qed.

Lemma verdict_of_first_look path w start now window r answer :
  verdict E path w start now window r ->
  first_look E path w start now window answer ->
  answer <> Ok false ->
  match answer with
  | Ok true => r = Ret true
  | Ok false => False
  | Fail e => r = Raise e
  end.
Proof.
  intros Hr Hlook Hanswer.
  destruct r as [[|]|e|]; cbn [verdict] in Hr.
  - rewrite <- (first_look_unique _ _ _ _ _ _ _ Hr Hlook) by congruence.
    reflexivity.
  - destruct Hlook as (k & Hk & Hlook & _). rewrite (Hr k Hk) in Hlook.
    congruence.
  - rewrite <- (first_look_unique _ _ _ _ _ _ _ Hr Hlook) by congruence.
    reflexivity.
  - contradiction.
Qed.

(** C2, as amended.  [_verify_download] comes to an end, and how it
    ends is decided by what [exists()] answers at its looks: the
    instant of the call, then the end of each sleep of a second or
    more, as long as less than [download_wait] seconds have passed.  It
    returns true exactly when the first answer that is not false is
    true; it raises exactly when that answer is an [OSError], which it
    lets through; it returns false exactly when every look of the
    window answers false.  So a true answer means that the file was
    there at an instant of the window, and a file that [exists()]
    reports absent all through the window gives false; a file that is
    there only between two looks, or only after the last one, is not
    seen. *)
Theorem verify_download_sees_file_at_polls (filename : string) (s : Self W) :
  exists r s',
    _verify_download E filename s = (r, s')
    /\ verdict E (expected_file s filename) (world (proc s))
         (clock (proc s)) (clock (proc s))
         (download_wait (config s) * 1000) r
    /\ (first_look E (expected_file s filename) (world (proc s))
          (clock (proc s)) (clock (proc s))
          (download_wait (config s) * 1000) (Ok true) ->
        r = Ret true)
    /\ (forall e,
          first_look E (expected_file s filename) (world (proc s))
            (clock (proc s)) (clock (proc s))
            (download_wait (config s) * 1000) (Fail e) ->
          r = Raise e)
    /\ (r = Ret true ->
        exists t, in_window s t /\ file_present E s filename t)
    /\ (forall e, r = Raise e ->
        exists t, in_window s t /\ look_fails E s filename t e)
    /\ ((forall t, in_window s t -> file_absent E s filename t) ->
        r = Ret false).
Proof.
  destruct (verify_download_spec filename s)
    as (r & s' & Hrun & _ & _ & _ & Hr).
  exists r, s'. split; [exact Hrun |]. split; [exact Hr |].
  split; [| split; [| split; [| split]]].
  - intros Hlook.
    now apply (verdict_of_first_look _ _ _ _ _ _ _ Hr Hlook).
  - intros e Hlook.
    now apply (verdict_of_first_look _ _ _ _ _ _ _ Hr Hlook).
  - intros ->. now apply first_look_in_window.
  - intros e ->. now apply first_look_in_window.
  - intros Hnever. destruct r as [[|]|e|]; cbn [verdict] in Hr.
    + apply first_look_in_window in Hr as (t & Ht & Hp).
      specialize (Hnever t Ht). unfold file_absent in Hnever. congruence.
    + reflexivity.
    + apply first_look_in_window in Hr as (t & Ht & Hp).
      specialize (Hnever t Ht). unfold file_absent in Hnever. congruence.
    + contradiction.
Qed.

End Verify.

(** C2 as the specification words it fails on a download that lands
    between the last look and the end of the window: with a wait of 15
    seconds and exact sleeps the loop looks at seconds 0 to 14; a file
    that lands at 14.5 seconds is present inside the window, and the
    answer is false. *)
Lemma verify_download_misses_late_file :
  (exists t, in_window Sim.self0 t
             /\ file_present Sim.E_late Sim.self0 "alice.conf" t)
  /\ fst (_verify_download Sim.E_late "alice.conf" Sim.self0) = Ret false.
Proof.
  split.
  - exists 14500. split; [unfold in_window; simpl; lia | reflexivity].
  - vm_compute. reflexivity.
Qed.

(** Where the directory may not be searched, the first look raises and
    [_verify_download] lets the error through. *)
Example verify_download_lets_oserror_through :
  fst (_verify_download Sim.E_denied "alice.conf" Sim.self0)
  = Raise Sim.denied.
Proof. vm_compute. reflexivity. Qed.

(** ** The browser operations *)

Section Operations.

Context {W : Type} (E : Env W).

Lemma extends_refl (s : Self W) : extends s s [].
Proof. split; [reflexivity | now rewrite app_nil_r]. Qed.

Lemma extends_trans (s s1 s2 : Self W) (a b : list event) :
  extends s s1 a -> extends s1 s2 b -> extends s s2 (a ++ b).
Proof.
  intros [Hc1 He1] [Hc2 He2]. split; [congruence |].
  now rewrite He2, He1, app_assoc.
Qed.

(** *** Primitive statements, when they return *)

Lemma self_config_inv (s : Self W) r s' :
  self_config s = (r, s') -> r = Ret (config s) /\ s' = s.
Proof. unfold self_config. intros H. now inversion H. Qed.

Lemma logger_info_inv msg (s : Self W) r s' :
  logger_info msg s = (r, s') -> r = Ret tt /\ extends s s' [Log INFO msg].
Proof.
  unfold logger_info, in_proc, emit. intros H. inversion H. subst.
  repeat split.
Qed.

Lemma logger_error_inv msg (s : Self W) r s' :
  logger_error msg s = (r, s') -> r = Ret tt /\ extends s s' [Log ERROR msg].
Proof.
  unfold logger_error, in_proc, emit. intros H. inversion H. subst.
  repeat split.
Qed.

Lemma drive_inv {A} c (f : W -> reply A * W) (s : Self W) r s' :
  drive c f s = (r, s') ->
  exists failure,
    extends s s' [Drv c failure]
    /\ match r with
       | Ret _ => failure = None
       | Raise e => failure = Some e
       | Diverge => False
       end.
Proof.
  unfold drive. destruct (f (world (proc s))) as [[a|e] w]; intros H;
    inversion H; subst; eexists; (split; [split; reflexivity |]); reflexivity.
Qed.

Lemma wait_for_element_inv by_ value arg (s : Self W) r s' :
  _wait_for_element E by_ value arg s = (r, s') ->
  let c := WaitPresence by_ value (timeout_or arg (timeout (config s))) in
  match r with
  | Ret (Some _) => extends s s' [Drv c None]
  | Ret None =>
      exists x,
        exn_class_eqb (exn_cls x) TimeoutException = true
        /\ extends s s'
             [Drv c (Some x);
              Log ERROR ("Timeout waiting for element: " +:+ value)]
  | Raise x =>
      exn_class_eqb (exn_cls x) TimeoutException = false
      /\ extends s s' [Drv c (Some x)]
  | Diverge => False
  end.
Proof.
  unfold _wait_for_element, try_except_cls, bind, self_config, drive, ret,
    logger_error, in_proc, emit.
  cbn [proc config world clock events].
  destruct (drv_wait E by_ value _ (world (proc s))) as [[e|x] w]; cbn.
  - intros H. inversion H. subst. split; reflexivity.
  - destruct (exn_class_eqb (exn_cls x) TimeoutException) eqn:Hx;
      intros H; inversion H; subst; cbn.
    + exists x. split; [exact Hx |]. split; cbn; [reflexivity |].
      now rewrite <- app_assoc.
    + split; [exact Hx |]. split; reflexivity.
Qed.

(** *** Every operation comes to an end *)

Lemma halts_self_config : halts (@self_config W).
Proof. intros s. discriminate. Qed.

Lemma halts_logger_info msg : halts (@logger_info W msg).
Proof. intros s. discriminate. Qed.

Lemma halts_logger_error msg : halts (@logger_error W msg).
Proof. intros s. discriminate. Qed.

Lemma halts_drive {A} c (f : W -> reply A * W) : halts (drive c f).
Proof.
  intros s. unfold drive. destruct (f (world (proc s))) as [[a|e] w];
    discriminate.
Qed.

Lemma returns_logger_info msg : returns (@logger_info W msg).
Proof. intros s. now eexists _, _. Qed.

Lemma returns_logger_error msg : returns (@logger_error W msg).
Proof. intros s. now eexists _, _. Qed.

Lemma halts_verify_download filename : halts (_verify_download E filename).
Proof.
  intros s.
  destruct (verify_download_spec E filename s)
    as (r & s' & H & _ & _ & _ & Hr).
  rewrite H. cbn [fst]. intros ->. exact Hr.
Qed.

End Operations.

Create HintDb halts.

#[export] Hint Resolve halts_ret halts_raise halts_self_config
  halts_logger_info halts_logger_error halts_drive halts_verify_download
  : halts.

(** Descend through the statements of a method: every primitive ends,
    and so do the sequences, the branches and the [try] blocks made of
    them. *)
Ltac halts_step :=
  lazymatch goal with
  | |- halts (bind _ _) => apply halts_bind; [| intros ?]
  | |- halts (try_except _ _) => apply halts_try_except; [| intros ?]
  | |- halts (try_except_cls _ _ _) => apply halts_try_except_cls
  | |- halts (try_finally _ _) => apply halts_try_finally
  | |- halts (let _ := _ in _) => cbv zeta
  | |- halts (if ?b then _ else _) => destruct b
  | |- halts (match ?o with Some _ => _ | None => _ end) => destruct o
  | |- _ => solve [auto with halts]
  end.

Ltac halts_tac := repeat halts_step.

(** ** Login *)

(** Follow a returning sequence one statement further: [H] says that
    [bind m k] returned; afterwards it says that the continuation did,
    and what [m] did is recorded. *)
Ltac run_as H a :=
  let s1 := fresh "s" in
  let Hm := fresh "Hm" in
  let Hs := fresh "Hs" in
  apply bind_ret_inv in H as (a & s1 & Hm & H);
  first
    [ apply self_config_inv in Hm as [Hm Hs];
      subst s1; injection Hm as Hm; subst a
    | apply logger_info_inv in Hm as [_ Hm]
    | apply logger_error_inv in Hm as [_ Hm]
    | apply drive_inv in Hm as (? & Hm & ->)
    | apply wait_for_element_inv in Hm; cbn zeta in Hm
    | idtac ].

Ltac run H := let a := fresh "a" in run_as H a.

(** Merge the recorded steps into one. *)
Ltac chain :=
  repeat match goal with
         | H1 : extends ?s ?s1 ?a, H2 : extends ?s1 ?s2 ?b |- _ =>
             pose proof (extends_trans s s1 s2 a b H1 H2);
             clear H1 H2; try clear s1
         end.

Section Login.

Context {W : Type} (E : Env W).

Lemma halts_wait_for_element by_ value arg :
  halts (_wait_for_element E by_ value arg).
Proof. unfold _wait_for_element. halts_tac. Qed.

Lemma returns_login : returns (login E).
Proof.
  unfold login. apply returns_try_except.
  - pose proof halts_wait_for_element. halts_tac.
  - intros e. apply returns_bind; [apply returns_logger_error |].
    intros _. apply returns_ret.
Qed.

Lemma ret_inv {A} (a b : A) (s s' : Self W) :
  ret a s = (Ret b, s') -> a = b /\ s' = s.
Proof. unfold ret. intros H. now inversion H. Qed.

(** When [login] answers true, no call on the browser failed, save
    possibly the opening probe timing out; and the probe was made. *)
Lemma login_true (s s' : Self W) :
  login E s = (Ret true, s') ->
  exists evs,
    extends s s' evs
    /\ required_step_failed evs = false
    /\ List.filter is_call evs <> [].
Proof.
  unfold login. intros H. apply try_except_true_inv in H.
  2:{ intros e s1 b s2 Hh. run Hh. now apply ret_inv in Hh as [<- _]. }
  run H. destruct a as [probe|]; cbn [element_truthy] in H.
  - run H. apply ret_inv in H as [_ ->]. chain.
    eexists. split; [eassumption |]. split; [reflexivity | discriminate].
  - destruct Hm as (x & Hx & Hm).
    do 3 run H. run_as H password_field. run_as H login_button.
    destruct password_field as [password_field|];
      [| now apply ret_inv in H as [? _]].
    destruct login_button as [login_button|];
      [| now apply ret_inv in H as [? _]].
    do 4 run H. run_as H marker.
    apply ret_inv in H as [Hr ->].
    destruct marker as [marker|]; [| discriminate].
    chain. eexists. split; [eassumption |].
    split; [| discriminate].
    unfold required_step_failed. cbn. rewrite Hx. reflexivity.
Qed.

(** C7.  When the probe for the logged-in marker finds it, [login]
    returns true after that one call: it logs "Already logged in", does
    not load the login page, fills no field and sends no password. *)
Theorem login_short_circuits_when_authenticated
    (s : Self W) (marker : element) (w : W) :
  drv_wait E XPATH clients_marker 2 (world (proc s)) = (Ok marker, w) ->
  exists s',
    login E s = (Ret true, s')
    /\ events (proc s')
       = (events (proc s)
          ++ [Drv (WaitPresence XPATH clients_marker 2) None;
              Log INFO "Already logged in"])%list
    /\ (forall ev, In ev (skipn (length (events (proc s))) (events (proc s'))) ->
        navigates ev = false /\ sends_keys ev = false).
Proof.
  intros Hprobe.
  unfold login, try_except, bind, _wait_for_element, try_except_cls, bind,
    self_config, drive, ret, logger_info, in_proc, emit.
  cbn [proc config world clock events timeout_or Z.eqb].
  rewrite Hprobe. cbn.
  eexists. split; [reflexivity |]. cbn [proc events].
  split; [now rewrite <- app_assoc |].
  rewrite <- app_assoc, skipn_app, skipn_all, Nat.sub_diag. cbn.
  intros ev [<-|[<-|[]]]; split; reflexivity.
Qed.

End Login.

Lemma login_short_circuits_when_authenticated_witness :
  exists s',
    login Sim.E0 Sim.self_authed = (Ret true, s')
    /\ events (proc s')
       = (events (proc Sim.self_authed)
          ++ [Drv (WaitPresence XPATH clients_marker 2) None;
              Log INFO "Already logged in"])%list
    /\ (forall ev,
          In ev (skipn (length (events (proc Sim.self_authed)))
                   (events (proc s'))) ->
          navigates ev = false /\ sends_keys ev = false).
Proof.
  apply (login_short_circuits_when_authenticated Sim.E0 Sim.self_authed
           1%nat (Sim.MkPanel true [] "")).
  reflexivity.
Defined.

(** ** Adding a name, downloading a configuration *)

Section TraceFacts.

Lemma call_failed_is_call (ev : event) : call_failed ev = true -> is_call ev = true.
Proof. destruct ev as [| |c [e|]| | | | | | | |]; simpl; congruence. Qed.

Lemma existsb_failed_calls (evs : list event) :
  existsb call_failed (List.filter is_call evs) = existsb call_failed evs.
Proof.
  induction evs as [|ev evs IH]; [reflexivity |]. simpl.
  destruct (is_call ev) eqn:Hc; simpl; rewrite IH; [reflexivity |].
  destruct (call_failed ev) eqn:Hf; [| reflexivity].
  apply call_failed_is_call in Hf. congruence.
Qed.

Lemma filter_calls_app (a b : list event) :
  List.filter is_call (a ++ b) = List.filter is_call a ++ List.filter is_call b.
Proof.
  induction a as [|x a IH]; [reflexivity |]. simpl.
  destruct (is_call x); simpl; now rewrite IH.
Qed.

(** Once the operation has made its first call, what follows counts in
    full. *)
Lemma required_step_failed_app (a b : list event) :
  List.filter is_call a <> [] ->
  required_step_failed (a ++ b)
  = required_step_failed a || existsb call_failed b.
Proof.
  unfold required_step_failed. rewrite filter_calls_app.
  destruct (List.filter is_call a) as [|first others]; [congruence |].
  intros _. simpl. rewrite existsb_app, existsb_failed_calls.
  now rewrite orb_assoc.
Qed.

Lemma sleeps_do_not_fail (evs : list event) :
  forallb look_or_sleep evs = true -> existsb call_failed evs = false.
Proof.
  induction evs as [|ev evs IH]; [reflexivity |]. simpl.
  intros H. apply andb_prop in H as [Hs H]. rewrite (IH H).
  destruct ev; try discriminate; reflexivity.
Qed.

(** A required element that is not found is a failed step. *)
Lemma missing_element_is_failed_step (evs : list event) :
  required_element_missing evs = true -> required_step_failed evs = true.
Proof.
  unfold required_element_missing, required_step_failed.
  destruct (List.filter is_call evs) as [|first others]; [discriminate |].
  simpl. intros H. apply orb_true_iff. right.
  induction others as [|ev evs' IH]; [discriminate |]. simpl in *.
  apply orb_true_iff in H as [H|H].
  - destruct ev as [| |c [e|]| | | | | | | |]; try discriminate.
    + reflexivity.
    + destruct c; discriminate.
  - rewrite (IH H). apply orb_true_r.
Qed.

End TraceFacts.

Section AddDownload.

Context {W : Type} (E : Env W).

Lemma halts_login : halts (login E).
Proof. apply returns_halts, returns_login. Qed.

Lemma returns_add_name name : returns (add_name E name).
Proof.
  unfold add_name. apply returns_try_except.
  - pose proof halts_login. pose proof (halts_wait_for_element E). halts_tac.
  - intros e. apply returns_bind; [apply returns_logger_error |].
    intros _. apply returns_ret.
Qed.

Lemma returns_download_configuration name :
  returns (download_configuration E name).
Proof.
  unfold download_configuration. apply returns_try_except.
  - pose proof halts_login. pose proof (halts_wait_for_element E). halts_tac.
  - intros e. apply returns_bind; [apply returns_logger_error |].
    intros _. apply returns_ret.
Qed.

Lemma verify_download_extends filename (s : Self W) r s' :
  _verify_download E filename s = (r, s') ->
  exists evs, extends s s' evs /\ forallb look_or_sleep evs = true.
Proof.
  destruct (verify_download_spec E filename s)
    as (r1 & s1 & Hrun & Hcfg & _ & (evs & Hev & Hsl) & _).
  rewrite Hrun. intros H. inversion H. subst.
  exists evs. repeat split; assumption.
Qed.

(** When [add_name] answers true, no call on the browser failed, save
    possibly the opening probe timing out. *)
Lemma add_name_true name (s s' : Self W) :
  add_name E name s = (Ret true, s') ->
  exists evs, extends s s' evs /\ required_step_failed evs = false.
Proof.
  unfold add_name. intros H. apply try_except_true_inv in H.
  2:{ intros e s1 b s2 Hh. run Hh. now apply ret_inv in Hh as [<- _]. }
  run_as H logged_in. destruct logged_in; [| now apply ret_inv in H as [? _]].
  apply login_true in Hm as (evs0 & Hlogin & Hreq & Hcalls).
  cbn [negb] in H.
  run_as H add_button.
  destruct add_button as [add_button|]; [| now apply ret_inv in H as [? _]].
  run H. run_as H input_box.
  destruct input_box as [input_box|]; [| now apply ret_inv in H as [? _]].
  do 2 run H. run_as H submit_button.
  destruct submit_button as [submit_button|];
    [| now apply ret_inv in H as [? _]].
  run H. run_as H verification. cbv zeta in H. run H.
  apply ret_inv in H as [Hr ->].
  destruct verification as [verification|]; [| discriminate].
  chain. rewrite <- ?app_assoc in *.
  eexists. split; [eassumption |].
  rewrite required_step_failed_app by assumption. rewrite Hreq. reflexivity.
Qed.

Lemma download_configuration_true name (s s' : Self W) :
  download_configuration E name s = (Ret true, s') ->
  exists evs, extends s s' evs /\ required_step_failed evs = false.
Proof.
  unfold download_configuration. intros H. apply try_except_true_inv in H.
  2:{ intros e s1 b s2 Hh. run Hh. now apply ret_inv in Hh as [<- _]. }
  run_as H logged_in. destruct logged_in; [| now apply ret_inv in H as [? _]].
  apply login_true in Hm as (evs0 & Hlogin & Hreq & Hcalls).
  cbn [negb] in H.
  run_as H person_element.
  destruct person_element as [person_element|].
  2:{ run H. now apply ret_inv in H as [? _]. }
  run_as H download_link. run_as H download_url. do 2 run H.
  run_as H verified.
  match goal with
  | Hv : _verify_download _ _ _ = _ |- _ =>
      apply verify_download_extends in Hv as (sleeps & Hv & Hsl)
  end.
  destruct verified.
  2:{ run H. now apply ret_inv in H as [? _]. }
  run H. apply ret_inv in H as [_ ->].
  chain. rewrite <- ?app_assoc in *.
  eexists. split; [eassumption |].
  rewrite required_step_failed_app by assumption. rewrite Hreq.
  cbn [orb app existsb call_failed].
  rewrite existsb_app, (sleeps_do_not_fail _ Hsl). reflexivity.
Qed.

(** Read on the trace: [add_name] and [download_configuration] return
    a boolean from every state, and the boolean is false whenever, in
    the calls the operation made on the browser, a wait for an element
    other than the opening logged-in probe timed out, or any call
    failed with an exception (the opening probe timing out apart, which
    only means that the password has to be sent). *)
Lemma operations_false_after_failed_step (name : string) :
  returns (add_name E name)
  /\ returns (download_configuration E name)
  /\ (forall (s s' : Self W) (b : bool) (evs : list event),
        add_name E name s = (Ret b, s') ->
        events (proc s') = (events (proc s) ++ evs)%list ->
        required_element_missing evs = true
        \/ required_step_failed evs = true ->
        b = false)
  /\ (forall (s s' : Self W) (b : bool) (evs : list event),
        download_configuration E name s = (Ret b, s') ->
        events (proc s') = (events (proc s) ++ evs)%list ->
        required_element_missing evs = true
        \/ required_step_failed evs = true ->
        b = false).
Proof.
  split; [apply returns_add_name |].
  split; [apply returns_download_configuration |].
  split; intros s s' b evs Hrun Hevs Hfail; destruct b; try reflexivity;
    exfalso;
    assert (Hf : required_step_failed evs = true)
      by (destruct Hfail as [Hm|Hf];
          [now apply missing_element_is_failed_step | exact Hf]).
  - apply add_name_true in Hrun as (evs' & [_ Hev'] & Hok).
    rewrite Hevs in Hev'. apply app_inv_head in Hev'. congruence.
  - apply download_configuration_true in Hrun as (evs' & [_ Hev'] & Hok).
    rewrite Hevs in Hev'. apply app_inv_head in Hev'. congruence.
Qed.

End AddDownload.

(** On the simulated panel, downloading for a client that the panel
    does not list: the wait for the client's row times out and the
    answer is false. *)
Example download_for_unknown_client :
  fst (download_configuration Sim.E0 "carol" Sim.self0) = Ret false
  /\ required_element_missing
       (events (proc (snd (download_configuration Sim.E0 "carol" Sim.self0))))
     = true.
Proof. split; vm_compute; reflexivity. Qed.

(** ** Elements that cannot be located *)

(** Follow a returning sequence one statement further, keeping what
    the statement returned as it is. *)
Ltac step_as H a :=
  let s1 := fresh "s" in
  let Hm := fresh "Hm" in
  apply bind_ret_inv in H as (a & s1 & Hm & H).


Section MissingElements.

Context {W : Type} (E : Env W).












End MissingElements.

(** On the simulated panel without its add button: the button is never
    located, and adding a name answers false. *)
Example add_name_without_add_button :
  never_located Sim.E_no_button
    "/html/body/div/div/div/div[3]/div[1]/div[2]/button"
  /\ fst (add_name Sim.E_no_button "alice" Sim.self0) = Ret false.
Proof.
  split; [| vm_compute; reflexivity].
  intros t w. eexists _, w. split; reflexivity.
Qed.

(** ** The batch loop *)

Section Batch.

Context {W : Type} (E : Env W).

Lemma count_true_le (oks : list bool) : (count_true oks <= length oks)%nat.
Proof.
  unfold count_true. induction oks as [|[] oks IH]; simpl; lia.
Qed.

Lemma batch_run_length func names (s s' : Self W) oks :
  batch_run func names s oks s' -> length oks = length names.
Proof. induction 1; simpl; congruence. Qed.

(** The loop with its counter is the run of the operation over the
    names, and the counter ends at its initial value plus the number of
    true answers. *)
Lemma name_loop_batch_run (func : string -> M (Self W) bool) :
  (forall name, returns (func name)) ->
  forall names count s,
  exists oks s',
    batch_run func names s oks s'
    /\ name_loop func names count s = (Ret (count + count_true oks)%nat, s').
Proof.
  intros Hfunc. induction names as [|name rest IH]; intros count s.
  - exists [], s. split; [constructor |].
    unfold name_loop, ret, count_true. simpl. now rewrite Nat.add_0_r.
  - destruct (Hfunc name s) as (ok & s1 & Hrun).
    set (s2 := MkSelf (config s1)
                 (MkProc (world (proc s1)) (clock (proc s1))
                    (events (proc s1) ++ [PbarUpdate 1]))).
    destruct (IH (if ok then Datatypes.S count else count) s2)
      as (oks & s' & Hrest & Hloop).
    exists (ok :: oks), s'. split.
    + econstructor; [exact Hrun | reflexivity | exact Hrest].
    + cbn [name_loop]. unfold bind at 1. rewrite Hrun.
      unfold bind at 1. cbn [in_proc emit]. fold s2. rewrite Hloop.
      f_equal. f_equal. unfold count_true. destruct ok; simpl; lia.
Qed.

Lemma operation_map_valid (operation : string) :
  operation = "add" \/ operation = "download" ->
  exists func,
    operation_map E operation = Some func
    /\ (forall name, returns (func name))
    /\ (operation = "add" -> func = add_name E)
    /\ (operation = "download" -> func = download_configuration E).
Proof.
  intros [->| ->].
  - exists (add_name E). repeat split; [apply returns_add_name | discriminate].
  - exists (download_configuration E).
    repeat split; [apply returns_download_configuration | discriminate].
Qed.

(** What [process_name_list] does for a valid operation, step by
    step. *)
Lemma process_name_list_steps (names : list string) (operation : string)
    (s : Self W) func :
  operation_map E operation = Some func ->
  (forall name, returns (func name)) ->
  exists oks s1 s2 s',
    extends s s1 [PbarOpen (length names) (Py.capitalize operation)]
    /\ batch_run func names s1 oks s2
    /\ name_loop func names 0 s1 = (Ret (count_true oks), s2)
    /\ process_name_list E names operation s = (Ret tt, s')
    /\ extends s2 s'
         [PbarClose;
          Log INFO (completed_message operation (count_true oks)
                      (length names))].
Proof.
  intros Hmap Hfunc.
  pose (s1 := MkSelf (config s)
                (MkProc (world (proc s)) (clock (proc s))
                   (events (proc s)
                    ++ [PbarOpen (length names) (Py.capitalize operation)]))).
  destruct (name_loop_batch_run func Hfunc names 0%nat s1)
    as (oks & s2 & Hrun & Hloop).
  cbn [Nat.add] in Hloop.
  exists oks, s1, s2. eexists.
  split; [split; reflexivity |].
  split; [exact Hrun |]. split; [exact Hloop |].
  unfold process_name_list. rewrite Hmap.
  unfold bind, try_finally. cbn [in_proc emit]. fold s1. rewrite Hloop.
  cbn [in_proc emit logger_info proc config world clock events].
  split; [reflexivity |].
  split; cbn; [reflexivity | now rewrite <- app_assoc].
Qed.

(** C5.  For [add] and for [download], [process_name_list] runs the
    corresponding operation on every name of the list, in list order,
    each run starting in the state the previous one left; it goes on
    whatever the answers are; the counter ends at the number of true
    answers; and the last thing it does is to log
    "<Operation> completed: X/N successful" with X that number and N the
    length of the list. *)
Theorem process_name_list_runs_every_name
    (names : list string) (operation : string) (s : Self W) :
  operation = "add" \/ operation = "download" ->
  exists func oks s1 s2 s',
    operation_map E operation = Some func
    /\ (operation = "add" -> func = add_name E)
    /\ (operation = "download" -> func = download_configuration E)
    /\ extends s s1 [PbarOpen (length names) (Py.capitalize operation)]
    /\ batch_run func names s1 oks s2
    /\ length oks = length names
    /\ name_loop func names 0 s1 = (Ret (count_true oks), s2)
    /\ process_name_list E names operation s = (Ret tt, s')
    /\ extends s2 s'
         [PbarClose;
          Log INFO
            (Py.capitalize operation +:+ " completed: "
             +:+ Py.str_of_nat (count_true oks) +:+ "/"
             +:+ Py.str_of_nat (length names) +:+ " successful")].
Proof.
  intros Hop.
  destruct (operation_map_valid operation Hop)
    as (func & Hmap & Hfunc & Hadd & Hdl).
  destruct (process_name_list_steps names operation s func Hmap Hfunc)
    as (oks & s1 & s2 & s' & Hopen & Hrun & Hloop & Hall & Hclose).
  exists func, oks, s1, s2, s'.
  repeat split; try assumption; try apply Hopen; try apply Hclose.
  eapply batch_run_length; eassumption.
Qed.

(** C6.  For a non-empty list and a valid operation, the final value
    of the success counter, which is the X of the completion message,
    is at most the length of the list. *)
Theorem batch_success_count_bounded
    (names : list string) (operation : string) (s : Self W) :
  names <> [] ->
  operation = "add" \/ operation = "download" ->
  exists func count s1 s2 s',
    operation_map E operation = Some func
    /\ extends s s1 [PbarOpen (length names) (Py.capitalize operation)]
    /\ name_loop func names 0 s1 = (Ret count, s2)
    /\ process_name_list E names operation s = (Ret tt, s')
    /\ extends s2 s'
         [PbarClose;
          Log INFO (completed_message operation count (length names))]
    /\ (count <= length names)%nat.
Proof.
  intros _ Hop.
  destruct (operation_map_valid operation Hop)
    as (func & Hmap & Hfunc & _ & _).
  destruct (process_name_list_steps names operation s func Hmap Hfunc)
    as (oks & s1 & s2 & s' & Hopen & Hrun & Hloop & Hall & Hclose).
  exists func, (count_true oks), s1, s2, s'.
  repeat split; try assumption; try apply Hopen; try apply Hclose.
  rewrite <- (batch_run_length _ _ _ _ _ Hrun). apply count_true_le.
Qed.

End Batch.

Example completed_message_example :
  completed_message "download" 3 12 = "Download completed: 3/12 successful".
Proof. reflexivity. Qed.

Lemma process_name_list_runs_every_name_witness :
  exists func oks s1 s2 s',
    operation_map Sim.E0 "add" = Some func
    /\ ("add" = "add" -> func = add_name Sim.E0)
    /\ ("add" = "download" -> func = download_configuration Sim.E0)
    /\ extends Sim.self0 s1 [PbarOpen (length ["alice"; "bob"])
                               (Py.capitalize "add")]
    /\ batch_run func ["alice"; "bob"] s1 oks s2
    /\ length oks = length ["alice"; "bob"]
    /\ name_loop func ["alice"; "bob"] 0 s1 = (Ret (count_true oks), s2)
    /\ process_name_list Sim.E0 ["alice"; "bob"] "add" Sim.self0 = (Ret tt, s')
    /\ extends s2 s'
         [PbarClose;
          Log INFO
            (Py.capitalize "add" +:+ " completed: "
             +:+ Py.str_of_nat (count_true oks) +:+ "/"
             +:+ Py.str_of_nat (length ["alice"; "bob"]) +:+ " successful")].
Proof.
  apply (process_name_list_runs_every_name Sim.E0 ["alice"; "bob"] "add"
           Sim.self0).
  left. reflexivity.
Defined.

Lemma batch_success_count_bounded_witness :
  exists func count s1 s2 s',
    operation_map Sim.E0 "download" = Some func
    /\ extends Sim.self0 s1 [PbarOpen (length ["alice"; "carol"])
                               (Py.capitalize "download")]
    /\ name_loop func ["alice"; "carol"] 0 s1 = (Ret count, s2)
    /\ process_name_list Sim.E0 ["alice"; "carol"] "download" Sim.self0
       = (Ret tt, s')
    /\ extends s2 s'
         [PbarClose;
          Log INFO (completed_message "download" count
                      (length ["alice"; "carol"]))]
    /\ (count <= length ["alice"; "carol"])%nat.
Proof.
  apply (batch_success_count_bounded Sim.E0 ["alice"; "carol"] "download"
           Sim.self0).
  - discriminate.
  - right. reflexivity.
Defined.

(** ** The configuration is never written *)

Section KeepsConfig.

Context {W : Type} (E : Env W).

Lemma keeps_ret {A} (a : A) : keeps_config (@ret (Self W) A a).
Proof.
  intros s r s' H. inversion H. subst. exists []. apply extends_refl.
Qed.

Lemma keeps_self_config : keeps_config (@self_config W).
Proof.
  intros s r s' H. inversion H. subst. exists []. apply extends_refl.
Qed.

Lemma keeps_time_time : keeps_config (@time_time W).
Proof.
  intros s r s' H. inversion H. subst. exists []. apply extends_refl.
Qed.

Lemma keeps_emit ev : keeps_config (in_proc (W := W) (emit ev)).
Proof.
  intros s r s' H. inversion H. subst. exists [ev]. split; reflexivity.
Qed.

Lemma keeps_logger_info msg : keeps_config (@logger_info W msg).
Proof. apply keeps_emit. Qed.

Lemma keeps_logger_error msg : keeps_config (@logger_error W msg).
Proof. apply keeps_emit. Qed.

Lemma keeps_drive {A} c (f : W -> reply A * W) : keeps_config (drive c f).
Proof.
  intros s r s' H. apply drive_inv in H as (failure & H & _). eauto.
Qed.

Lemma keeps_bind {A B} (m : M (Self W) A) (k : A -> M (Self W) B) :
  keeps_config m -> (forall a, keeps_config (k a)) -> keeps_config (bind m k).
Proof.
  intros Hm Hk s r s'. unfold bind.
  destruct (m s) as [[a|e|] s1] eqn:Hrun; intros H;
    apply Hm in Hrun as (out1 & H1).
  - apply Hk in H as (out2 & H2). eexists. eapply extends_trans; eassumption.
  - inversion H. subst. eauto.
  - inversion H. subst. eauto.
Qed.

Lemma keeps_try_except {A} (body : M (Self W) A) handler :
  keeps_config body -> (forall e, keeps_config (handler e)) ->
  keeps_config (try_except body handler).
Proof.
  intros Hb Hh s r s'. unfold try_except.
  destruct (body s) as [[a|e|] s1] eqn:Hrun; intros H;
    apply Hb in Hrun as (out1 & H1).
  - inversion H. subst. eauto.
  - apply Hh in H as (out2 & H2). eexists. eapply extends_trans; eassumption.
  - inversion H. subst. eauto.
Qed.

Lemma keeps_try_except_cls {A} cls (body handler : M (Self W) A) :
  keeps_config body -> keeps_config handler ->
  keeps_config (try_except_cls cls body handler).
Proof.
  intros Hb Hh s r s'. unfold try_except_cls.
  destruct (body s) as [[a|e|] s1] eqn:Hrun; intros H;
    apply Hb in Hrun as (out1 & H1).
  - inversion H. subst. eauto.
  - destruct (exn_class_eqb (exn_cls e) cls).
    + apply Hh in H as (out2 & H2). eexists.
      eapply extends_trans; eassumption.
    + inversion H. subst. eauto.
  - inversion H. subst. eauto.
Qed.

Lemma keeps_try_finally {A} (body : M (Self W) A) fin :
  keeps_config body -> keeps_config fin ->
  keeps_config (try_finally body fin).
Proof.
  intros Hb Hf s r s'. unfold try_finally.
  destruct (body s) as [[a|e|] s1] eqn:Hrun;
    apply Hb in Hrun as (out1 & H1);
    try (destruct (fin s1) as [[[]|e'|] s2] eqn:Hfin;
         apply Hf in Hfin as (out2 & H2));
    intros H; inversion H; subst; eauto;
    eexists; eapply extends_trans; eassumption.
Qed.

Lemma keeps_verify_download filename :
  keeps_config (_verify_download E filename).
Proof.
  intros s r s' H. apply verify_download_extends in H as (evs & H & _). eauto.
Qed.

End KeepsConfig.

Create HintDb keeps.

#[export] Hint Resolve keeps_ret keeps_self_config keeps_time_time keeps_emit
  keeps_logger_info keeps_logger_error keeps_drive keeps_verify_download
  : keeps.

Ltac keeps_step :=
  lazymatch goal with
  | |- keeps_config (bind _ _) => apply keeps_bind; [| intros ?]
  | |- keeps_config (try_except _ _) => apply keeps_try_except; [| intros ?]
  | |- keeps_config (try_except_cls _ _ _) => apply keeps_try_except_cls
  | |- keeps_config (try_finally _ _) => apply keeps_try_finally
  | |- keeps_config (let _ := _ in _) => cbv zeta
  | |- keeps_config (if ?b then _ else _) => destruct b
  | |- keeps_config (match ?o with Some _ => _ | None => _ end) => destruct o
  | |- _ => solve [auto with keeps]
  end.

Ltac keeps_tac := repeat keeps_step.

Section KeepsConfigMethods.

Context {W : Type} (E : Env W).

Lemma keeps_wait_for_element by_ value arg :
  keeps_config (_wait_for_element E by_ value arg).
Proof. unfold _wait_for_element. keeps_tac. Qed.

Lemma keeps_login : keeps_config (login E).
Proof. pose proof (keeps_wait_for_element). unfold login. keeps_tac. Qed.

Lemma keeps_add_name name : keeps_config (add_name E name).
Proof.
  pose proof (keeps_wait_for_element). pose proof keeps_login.
  unfold add_name. keeps_tac.
Qed.

Lemma keeps_download_configuration name :
  keeps_config (download_configuration E name).
Proof.
  pose proof (keeps_wait_for_element). pose proof keeps_login.
  unfold download_configuration. keeps_tac.
Qed.

Lemma keeps_name_loop func :
  (forall name, keeps_config (func name)) ->
  forall names count, keeps_config (name_loop (W := W) func names count).
Proof.
  intros Hfunc. induction names as [|name rest IH]; intros count;
    cbn [name_loop]; keeps_tac.
Qed.

Lemma keeps_process_name_list names operation :
  keeps_config (process_name_list E names operation).
Proof.
  unfold process_name_list, operation_map.
  destruct (String.eqb operation "add");
    [| destruct (String.eqb operation "download")]; keeps_tac.
  - apply keeps_name_loop, keeps_add_name.
  - apply keeps_name_loop, keeps_download_configuration.
Qed.

Lemma keeps_close : keeps_config (close E).
Proof. unfold close. keeps_tac. Qed.

Lemma keeps_read_names filename :
  keeps_config (in_proc (read_names_from_file E filename)).
Proof.
  intros s r s'. unfold in_proc.
  destruct (read_text E filename (world (proc s))) as [content|e] eqn:Hread.
  - rewrite (read_names_readable E _ _ _ Hread). intros H. inversion H.
    subst. exists []. split; cbn; [reflexivity | now rewrite app_nil_r].
  - rewrite (read_names_unreadable E _ _ _ Hread). intros H. inversion H.
    subst. eexists. split; reflexivity.
Qed.

Lemma keeps_dispatch args : keeps_config (dispatch E args).
Proof.
  pose proof keeps_read_names. pose proof keeps_process_name_list.
  pose proof keeps_add_name. pose proof keeps_download_configuration.
  destruct args; cbn [dispatch]; keeps_tac;
    match goal with
    | |- keeps_config (match ?l with [] => _ | _ :: _ => _ end) =>
        destruct l; keeps_tac
    end.
Qed.

End KeepsConfigMethods.

(** ** The program *)

Section Main.

Context {W : Type} (E : Env W).

Lemma main_phases (args : Args) (p : Proc W) :
  main E args p = bind (startup E) (session E args) p.
Proof.
  unfold main, startup, session, bind.
  destruct (read_info E "info.txt" p) as [[info|e|] p1]; try reflexivity.
  destruct (dict_get info "IP" p1) as [[ip|e|] p2]; try reflexivity.
  destruct (dict_get info "password" p2) as [[pw|e|] p3]; try reflexivity.
  destruct (WebAutomation_init E _ p3) as [[[]|e|] p4]; reflexivity.
Qed.

(** What [startup] read when it returns a configuration. *)
Lemma startup_ret_inv (p p1 : Proc W) (cfg : Config) :
  startup E p = (Ret cfg, p1) ->
  exists content info ip pw,
    read_text E "info.txt" (world p) = Ok content
    /\ read_info_loop (Py.file_lines content) ∅ = Ret info
    /\ info !! "IP" = Some ip
    /\ info !! "password" = Some pw
    /\ cfg = MkConfig ("http://" +:+ ip +:+ ":51821/") pw
               (path_join (cwd E) "config_files") 10 15.
Proof.
  unfold startup, read_info, open_lines, dict_get, bind.
  destruct (read_text E "info.txt" (world p)) as [content|e];
    cbv beta iota; [| discriminate].
  destruct (read_info_loop (Py.file_lines content) ∅) as [info|e|] eqn:Hloop;
    cbv beta iota; [| discriminate | discriminate].
  destruct (info !! "IP") as [ip|] eqn:Hip;
    cbn [ret raise]; cbv beta iota; [| discriminate].
  destruct (info !! "password") as [pw|] eqn:Hpw;
    cbn [ret raise]; cbv beta iota; [| discriminate].
  destruct (WebAutomation_init E _ p) as [[[]|e|] p4];
    cbn [ret]; cbv beta iota; try discriminate.
  intros H. inversion H. subst. exists content, info, ip, pw.
  repeat split; first [assumption | reflexivity].
Qed.

Lemma init_events (cfg : Config) (p : Proc W) r p' :
  WebAutomation_init E cfg p = (r, p') ->
  r <> Diverge
  /\ exists evs, events p' = events p ++ evs
                 /\ forallb (fun ev => negb (is_call ev)) evs = true.
Proof.
  unfold WebAutomation_init, bind.
  destruct (fs_mkdir E (download_dir cfg) (world p)) as [[[]|e] w];
    cbn [world clock events].
  - destruct (chrome_start E (download_dir cfg) w) as [[[]|e] w'];
      intros H; inversion H; subst; (split; [discriminate |]);
      eexists; cbn [events]; rewrite <- app_assoc; split; reflexivity.
  - intros H; inversion H; subst. split; [discriminate |].
    eexists. split; reflexivity.
Qed.

(** Why [startup] raises when it does, and that it has not touched the
    browser by then. *)
Lemma startup_raise_inv (p p1 : Proc W) (e : exn) :
  startup E p = (Raise e, p1) ->
  startup_failure E p e
  /\ exists evs, events p1 = events p ++ evs
                 /\ forallb (fun ev => negb (is_call ev)) evs = true.
Proof.
  unfold startup, startup_failure, read_info, open_lines, dict_get, bind.
  destruct (read_text E "info.txt" (world p)) as [content|e0] eqn:Hread;
    cbv beta iota.
  2:{ intros H. inversion H. subst. split; [now left |].
      exists []. now rewrite app_nil_r. }
  destruct (read_info_loop (Py.file_lines content) ∅) as [info|e0|] eqn:Hloop;
    cbv beta iota.
  3:{ discriminate. }
  2:{ intros H. inversion H. subst. split; [right; eauto |].
      exists []. now rewrite app_nil_r. }
  destruct (info !! "IP") as [ip|] eqn:Hip; cbn [ret raise]; cbv beta iota.
  2:{ intros H. inversion H. subst.
      split; [right; exists content; split; [first [reflexivity | assumption] |]; right;
              exists info; split; [first [reflexivity | assumption] |]; left; now split |].
      exists []. now rewrite app_nil_r. }
  destruct (info !! "password") as [pw|] eqn:Hpw;
    cbn [ret raise]; cbv beta iota.
  2:{ intros H. inversion H. subst.
      split; [right; exists content; split; [first [reflexivity | assumption] |]; right;
              exists info; split; [first [reflexivity | assumption] |]; right; left;
              rewrite Hip; repeat split; eauto |].
      exists []. now rewrite app_nil_r. }
  destruct (WebAutomation_init E _ p) as [[[]|e0|] p4] eqn:Hinit;
    cbn [ret]; cbv beta iota; try discriminate.
  intros H. inversion H. subst.
  split.
  - right; exists content; split; [first [reflexivity | assumption] |]. right.
    exists info; split; [first [reflexivity | assumption] |]. right; right.
    exists ip, pw. rewrite Hinit. repeat split; assumption.
  - now apply init_events in Hinit as [_ Hev].
Qed.

Lemma startup_halts : halts (startup E).
Proof.
  intros p. unfold startup, read_info, open_lines, dict_get, bind.
  destruct (read_text E "info.txt" (world p)) as [content|e0];
    cbv beta iota; [| discriminate].
  destruct (read_info_loop (Py.file_lines content) ∅) as [info|e0|] eqn:Hloop;
    cbv beta iota; [| discriminate |].
  - destruct (info !! "IP"); cbn [ret raise]; cbv beta iota; [| discriminate].
    destruct (info !! "password"); cbn [ret raise]; cbv beta iota;
      [| discriminate].
    destruct (WebAutomation_init E _ p) as [[[]|e0|] p4] eqn:Hinit;
      cbn [ret]; cbv beta iota; try discriminate.
    now apply init_events in Hinit as [Hne _].
  - exfalso. clear -Hloop. revert Hloop. generalize (∅ : gmap string string).
    induction (Py.file_lines content) as [|l ls IH]; intros info;
      [discriminate |].
    cbn [read_info_loop].
    destruct (Py.truthy (Py.strip l)
              && negb (Py.startswith_char "#" (Py.strip l))); [| apply IH].
    destruct (unpack2 (Py.split1 "=" (Py.strip l))) as [[k v]|e|] eqn:Hu;
      [apply IH | discriminate |].
    unfold unpack2 in Hu.
    destruct (Py.split1 "=" (Py.strip l)) as [|a [|b [|c r]]]; discriminate.
Qed.

Lemma returns_process_name_list names operation :
  operation = "add" \/ operation = "download" ->
  returns (process_name_list E names operation).
Proof.
  intros Hop s.
  destruct (operation_map_valid E operation Hop) as (func & Hmap & Hfunc & _).
  destruct (process_name_list_steps E names operation s func Hmap Hfunc)
    as (_ & _ & _ & s' & _ & _ & _ & Hrun & _).
  now exists tt, s'.
Qed.

Lemma returns_read_names filename :
  returns (in_proc (W := W) (read_names_from_file E filename)).
Proof.
  intros s. unfold in_proc.
  destruct (read_text E filename (world (proc s))) as [content|e] eqn:Hread.
  - rewrite (read_names_readable E _ _ _ Hread). now eexists _, _.
  - rewrite (read_names_unreadable E _ _ _ Hread). now eexists _, _.
Qed.

Lemma returns_dispatch args : returns (dispatch E args).
Proof.
  destruct args as [filename|name|filename|name|]; cbn [dispatch].
  - apply returns_bind; [apply returns_read_names |].
    intros [|n ns]; [apply returns_logger_error |].
    apply returns_process_name_list. now left.
  - apply returns_bind; [apply returns_add_name |].
    intros _. apply returns_ret.
  - apply returns_bind; [apply returns_read_names |].
    intros [|n ns]; [apply returns_logger_error |].
    apply returns_process_name_list. now right.
  - apply returns_bind; [apply returns_download_configuration |].
    intros _. apply returns_ret.
  - intros s. now eexists _, _.
Qed.

(** [close] returns whatever the browser does, and asks it to quit. *)
Lemma close_quits (s : Self W) :
  exists s' failure tail,
    close E s = (Ret tt, s')
    /\ config s' = config s
    /\ events (proc s') = events (proc s) ++ Drv DriverQuit failure :: tail
    /\ forallb (fun ev => negb (touches_page ev)) (Drv DriverQuit failure :: tail)
       = true.
Proof.
  unfold close, try_except, drive, logger_error, in_proc, emit.
  destruct (drv_quit E (world (proc s))) as [[[]|e] w]; cbn.
  - eexists _, None, []. repeat split.
  - eexists _, (Some e), [_]. split; [reflexivity |]. cbn.
    rewrite <- app_assoc. repeat split.
Qed.

(** C4, as amended.  Of the configuration record, [url] and [password]
    come from the configuration file: when [startup] returns a record,
    the file was read, [url] is "http://" + the value of [IP] +
    ":51821/" and [password] is the value of [password].  The download
    directory ([config_files] under the working directory) and the two
    time-outs (10 and 15 seconds) are the defaults of the class and do
    not depend on the file.  No method of the object writes the record:
    [login], [add_name], [download_configuration], [process_name_list],
    [close] and the dispatch of [main] with its cleanup leave it as they
    found it, however they end. *)
Theorem config_loaded_once_then_constant :
  (forall (p p1 : Proc W) (cfg : Config),
      startup E p = (Ret cfg, p1) ->
      exists content info ip pw,
        read_text E "info.txt" (world p) = Ok content
        /\ read_info_loop (Py.file_lines content) ∅ = Ret info
        /\ info !! "IP" = Some ip
        /\ info !! "password" = Some pw
        /\ url cfg = "http://" +:+ ip +:+ ":51821/"
        /\ password cfg = pw
        /\ download_dir cfg = path_join (cwd E) "config_files"
        /\ timeout cfg = 10
        /\ download_wait cfg = 15)
  /\ (forall (s s' : Self W) r, login E s = (r, s') -> config s' = config s)
  /\ (forall name (s s' : Self W) r,
        add_name E name s = (r, s') -> config s' = config s)
  /\ (forall name (s s' : Self W) r,
        download_configuration E name s = (r, s') -> config s' = config s)
  /\ (forall names operation (s s' : Self W) r,
        process_name_list E names operation s = (r, s') ->
        config s' = config s)
  /\ (forall (s s' : Self W) r, close E s = (r, s') -> config s' = config s)
  /\ (forall args (s s' : Self W) r,
        try_finally (dispatch E args) (close E) s = (r, s') ->
        config s' = config s).
Proof.
  split.
  { intros p p1 cfg H.
    apply startup_ret_inv in H as (content & info & ip & pw & H1 & H2 & H3
                                   & H4 & ->).
    exists content, info, ip, pw. repeat split; assumption. }
  repeat split.
  - intros s s' r H. now apply keeps_login in H as (out & Hc & _).
  - intros name s s' r H. now apply keeps_add_name in H as (out & Hc & _).
  - intros name s s' r H.
    now apply keeps_download_configuration in H as (out & Hc & _).
  - intros names operation s s' r H.
    now apply keeps_process_name_list in H as (out & Hc & _).
  - intros s s' r H. now apply keeps_close in H as (out & Hc & _).
  - intros args s s' r H.
    apply (keeps_try_finally _ _ (keeps_dispatch E args) (keeps_close E))
      in H as (out & Hc & _).
    exact Hc.
Qed.


End Main.

(** C4 as the specification words it fails on a configuration file
    that sets the time-outs and the directory: the file is read into a
    dictionary that holds them, and the record is built with the
    defaults all the same. *)
Lemma timeouts_and_directory_are_defaults :
  (exists info,
      fst (read_info Sim.E_tuned "info.txt" Sim.fresh) = Ret info
      /\ info !! "timeout" = Some "99"
      /\ info !! "download_wait" = Some "1"
      /\ info !! "download_dir" = Some "/tmp/conf")
  /\ fst (startup Sim.E_tuned Sim.fresh)
     = Ret (MkConfig "http://10.0.0.1:51821/" "secret"
              "/home/user/config_files" 10 15).
Proof.
  split.
  - eexists. split; [reflexivity |]. repeat split; vm_compute; reflexivity.
  - vm_compute. reflexivity.
Qed.

(** C8 as the specification words it fails on a configuration file
    that has both required keys and a stray line: [main] raises
    [ValueError] before the browser is started. *)
Lemma malformed_line_crashes_with_keys_present :
  existsb (assigns "IP") (Py.file_lines Sim.stray_info_txt) = true
  /\ existsb (assigns "password") (Py.file_lines Sim.stray_info_txt) = true
  /\ main Sim.E_stray (AddOne "alice") Sim.fresh
     = (Raise (Exn ValueError
                 "not enough values to unpack (expected 2, got 1)"),
        Sim.fresh).
Proof. repeat split; vm_compute; reflexivity. Qed.


(** ** Every error is logged *)

Section ErrorsLogged.

Lemma errors_logged_app (a b : list event) :
  errors_logged a = true -> errors_logged b = true ->
  errors_logged (a ++ b) = true.
Proof.
  induction a as [|ev rest IH]; intros Ha Hb; [exact Hb |].
  cbn [errors_logged] in Ha. apply andb_prop in Ha as [Hev Hrest].
  change ((ev :: rest) ++ b) with (ev :: (rest ++ b)).
  cbn [errors_logged]. rewrite (IH Hrest Hb), andb_true_r.
  destruct (is_error ev); [| reflexivity].
  destruct rest as [|next rest']; [discriminate | exact Hev].
Qed.

Lemma error_pending_app (a b : list event) :
  errors_logged a = true -> error_pending b -> error_pending (a ++ b).
Proof.
  intros Ha (pre & ev & -> & Hev & Hpre).
  exists (a ++ pre), ev. rewrite app_assoc.
  repeat split; [assumption |]. now apply errors_logged_app.
Qed.

Lemma error_pending_one (ev : event) :
  is_error ev = true -> error_pending [ev].
Proof. intros Hev. now exists [], ev. Qed.

Lemma settled_app {A} (r : outcome A) (a b : list event) :
  errors_logged a = true -> settled r b -> settled r (a ++ b).
Proof.
  intros Ha. destruct r; cbn [settled]; intros Hb;
    first [now apply errors_logged_app | now apply error_pending_app].
Qed.

(** The error line of a handler settles the error that was pending. *)
Lemma settled_after_pending {A} (r : outcome A) (a b : list event) msg :
  error_pending a -> settled r b -> settled r (a ++ Log ERROR msg :: b).
Proof.
  intros (pre & ev & -> & Hev & Hpre) Hb.
  rewrite <- app_assoc. apply settled_app; [assumption |].
  cbn [app]. destruct r; cbn [settled] in *.
  - cbn [errors_logged is_error is_error_log negb orb andb].
    now rewrite orb_true_r, Hb.
  - destruct Hb as (pre' & ev' & -> & Hev' & Hpre').
    exists (ev :: Log ERROR msg :: pre'), ev'.
    repeat split; [assumption |].
    cbn [errors_logged is_error is_error_log negb orb andb].
    now rewrite orb_true_r, Hpre'.
  - cbn [errors_logged is_error is_error_log negb orb andb].
    now rewrite orb_true_r, Hb.
Qed.

(** Looks and sleeps hold no error line: if their errors are logged,
    there is none. *)
Lemma looks_without_error (evs : list event) :
  forallb look_or_sleep evs = true ->
  errors_logged evs = true ->
  existsb look_failed evs = false.
Proof.
  induction evs as [|ev rest IH]; [reflexivity |].
  cbn [forallb errors_logged existsb]. intros Hall Hlog.
  apply andb_prop in Hall as [Hev Hall].
  apply andb_prop in Hlog as [Hnow Hlog].
  rewrite (IH Hall Hlog), orb_false_r.
  destruct ev as [| | | | | | | | | |path [b|e]]; try reflexivity.
  cbn [is_error negb orb] in Hnow.
  destruct rest as [|next rest']; [discriminate |].
  cbn [forallb] in Hall. apply andb_prop in Hall as [Hnext _].
  destruct next as [[]| | | | | | | | | |]; discriminate.
Qed.

End ErrorsLogged.

Section LogsErrors.

Context {W : Type} (E : Env W).

Lemma logs_ret {A} (a : A) : logs_errors (@ret (Self W) A a).
Proof.
  intros s r s' H. inversion H. subst. exists [].
  split; [apply extends_refl | reflexivity].
Qed.

Lemma logs_self_config : logs_errors (@self_config W).
Proof.
  intros s r s' H. inversion H. subst. exists [].
  split; [apply extends_refl | reflexivity].
Qed.

Lemma logs_time_time : logs_errors (@time_time W).
Proof.
  intros s r s' H. inversion H. subst. exists [].
  split; [apply extends_refl | reflexivity].
Qed.

Lemma logs_emit (ev : event) :
  is_error ev = false -> logs_errors (in_proc (W := W) (emit ev)).
Proof.
  intros Hev s r s' H. inversion H. subst. exists [ev].
  split; [split; reflexivity |]. cbn. now rewrite Hev.
Qed.

Lemma logs_logger_info msg : logs_errors (@logger_info W msg).
Proof. now apply logs_emit. Qed.

Lemma logs_logger_error msg : logs_errors (@logger_error W msg).
Proof. now apply logs_emit. Qed.

Lemma logs_time_sleep_1 : logs_errors (time_sleep_1 E).
Proof.
  intros s r s' H. inversion H. subst. eexists [_].
  split; [split; reflexivity | reflexivity].
Qed.

Lemma logs_drive {A} c (f : W -> reply A * W) : logs_errors (drive c f).
Proof.
  intros s r s' H. apply drive_inv in H as (failure & H & Hr).
  exists [Drv c failure]. split; [exact H |].
  destruct r; cbn [settled]; subst; [reflexivity | | contradiction].
  now apply error_pending_one.
Qed.

Lemma logs_path_exists path : logs_errors (path_exists E path).
Proof.
  intros s r s'. unfold path_exists.
  destruct (fs_exists E path (world (proc s)) (clock (proc s))) as [b|e];
    intros H; inversion H; subst; eexists [_];
    (split; [split; reflexivity |]); [reflexivity |].
  now apply error_pending_one.
Qed.

Lemma logs_bind {A B} (m : M (Self W) A) (k : A -> M (Self W) B) :
  logs_errors m -> (forall a, logs_errors (k a)) -> logs_errors (bind m k).
Proof.
  intros Hm Hk s r s'. unfold bind.
  destruct (m s) as [[a|e|] s1] eqn:Hrun; intros H;
    apply Hm in Hrun as (out1 & H1 & Hs1); cbn [settled] in Hs1.
  - apply Hk in H as (out2 & H2 & Hs2). exists (out1 ++ out2).
    split; [eapply extends_trans; eassumption | now apply settled_app].
  - inversion H. subst. eauto.
  - inversion H. subst. eauto.
Qed.

Lemma handles_logger_error msg : handles (@logger_error W msg).
Proof.
  intros s r s' H. apply logger_error_inv in H as [-> H].
  exists msg, []. split; [exact H | reflexivity].
Qed.

Lemma handles_bind {B} msg (k : unit -> M (Self W) B) :
  (forall a, logs_errors (k a)) -> handles (bind (logger_error msg) k).
Proof.
  intros Hk s r s'. unfold bind.
  destruct (logger_error msg s) as [[[]|e|] s1] eqn:Hrun;
    apply logger_error_inv in Hrun as [Hr H1]; try discriminate.
  intros H. apply Hk in H as (out & H2 & Hs).
  exists msg, out. split; [| exact Hs].
  change (Log ERROR msg :: out) with ([Log ERROR msg] ++ out).
  eapply extends_trans; eassumption.
Qed.

Lemma logs_try_except {A} (body : M (Self W) A) handler :
  logs_errors body -> (forall e, handles (handler e)) ->
  logs_errors (try_except body handler).
Proof.
  intros Hb Hh s r s'. unfold try_except.
  destruct (body s) as [[a|e|] s1] eqn:Hrun; intros H;
    apply Hb in Hrun as (out1 & H1 & Hs1); cbn [settled] in Hs1.
  - inversion H. subst. eauto.
  - apply Hh in H as (msg & out2 & H2 & Hs2).
    exists (out1 ++ Log ERROR msg :: out2).
    split; [eapply extends_trans; eassumption |].
    now apply settled_after_pending.
  - inversion H. subst. eauto.
Qed.

Lemma logs_try_except_cls {A} cls (body handler : M (Self W) A) :
  logs_errors body -> handles handler ->
  logs_errors (try_except_cls cls body handler).
Proof.
  intros Hb Hh s r s'. unfold try_except_cls.
  destruct (body s) as [[a|e|] s1] eqn:Hrun; intros H;
    apply Hb in Hrun as (out1 & H1 & Hs1); cbn [settled] in Hs1.
  - inversion H. subst. eauto.
  - destruct (exn_class_eqb (exn_cls e) cls).
    + apply Hh in H as (msg & out2 & H2 & Hs2).
      exists (out1 ++ Log ERROR msg :: out2).
      split; [eapply extends_trans; eassumption |].
      now apply settled_after_pending.
    + inversion H. subst. eauto.
  - inversion H. subst. eauto.
Qed.

(** A body that returns leaves no error pending when the final block
    begins. *)
Lemma logs_try_finally {A} (body : M (Self W) A) fin :
  returns body -> logs_errors body -> logs_errors fin ->
  logs_errors (try_finally body fin).
Proof.
  intros Hret Hb Hf s r s'. unfold try_finally.
  destruct (Hret s) as (a & s1 & Hrun). rewrite Hrun.
  apply Hb in Hrun as (out1 & H1 & Hs1). cbn [settled] in Hs1.
  destruct (fin s1) as [[[]|e'|] s2] eqn:Hfin;
    apply Hf in Hfin as (out2 & H2 & Hs2);
    intros H; inversion H; subst; exists (out1 ++ out2);
    (split; [eapply extends_trans; eassumption | now apply settled_app]).
Qed.

End LogsErrors.

Create HintDb logs.

#[export] Hint Resolve logs_ret logs_self_config logs_time_time
  logs_logger_info logs_logger_error logs_time_sleep_1 logs_drive
  logs_path_exists handles_logger_error : logs.

Ltac logs_step :=
  lazymatch goal with
  | |- logs_errors (bind _ _) => apply logs_bind; [| intros ?]
  | |- logs_errors (try_except _ _) => apply logs_try_except; [| intros ?]
  | |- logs_errors (try_except_cls _ _ _) => apply logs_try_except_cls
  | |- handles (bind (logger_error _) _) => apply handles_bind; intros ?
  | |- logs_errors (let _ := _ in _) => cbv zeta
  | |- logs_errors (if ?b then _ else _) => destruct b
  | |- logs_errors (match ?o with Some _ => _ | None => _ end) => destruct o
  | |- _ => solve [auto with logs]
  end.

Ltac logs_tac := repeat logs_step.

Section LogsErrorsMethods.

Context {W : Type} (E : Env W).

Lemma logs_wait_for_element by_ value arg :
  logs_errors (_wait_for_element E by_ value arg).
Proof. unfold _wait_for_element. logs_tac. Qed.

Lemma logs_verify_loop path start fuel :
  logs_errors (verify_loop E fuel path start).
Proof.
  induction fuel as [|fuel IH]; cbn [verify_loop].
  - intros s r s' H. inversion H. subst. exists [].
    split; [apply extends_refl | reflexivity].
  - logs_tac.
Qed.

Lemma logs_verify_download filename :
  logs_errors (_verify_download E filename).
Proof.
  pose proof logs_verify_loop. unfold _verify_download. logs_tac.
Qed.

Lemma logs_login : logs_errors (login E).
Proof. pose proof logs_wait_for_element. unfold login. logs_tac. Qed.

Lemma logs_add_name name : logs_errors (add_name E name).
Proof.
  pose proof logs_wait_for_element. pose proof logs_login.
  unfold add_name. logs_tac.
Qed.

Lemma logs_download_configuration name :
  logs_errors (download_configuration E name).
Proof.
  pose proof logs_wait_for_element. pose proof logs_login.
  pose proof logs_verify_download.
  unfold download_configuration. logs_tac.
Qed.

Lemma logs_name_loop func :
  (forall name, logs_errors (func name)) ->
  forall names count, logs_errors (name_loop (W := W) func names count).
Proof.
  intros Hfunc. induction names as [|name rest IH]; intros count;
    cbn [name_loop]; logs_tac.
  now apply logs_emit.
Qed.

Lemma returns_name_loop func :
  (forall name, returns (func name)) ->
  forall names count, returns (name_loop (W := W) func names count).
Proof.
  intros Hfunc names count s.
  destruct (name_loop_batch_run func Hfunc names count s)
    as (oks & s' & _ & Hrun).
  eauto.
Qed.

Lemma logs_process_name_list names operation :
  logs_errors (process_name_list E names operation).
Proof.
  unfold process_name_list, operation_map.
  destruct (String.eqb operation "add");
    [| destruct (String.eqb operation "download")]; logs_tac;
    try (now apply logs_emit).
  - apply logs_try_finally; [| | now apply logs_emit].
    + apply returns_name_loop, returns_add_name.
    + apply logs_name_loop, logs_add_name.
  - apply logs_try_finally; [| | now apply logs_emit].
    + apply returns_name_loop, returns_download_configuration.
    + apply logs_name_loop, logs_download_configuration.
Qed.

Lemma logs_close : logs_errors (close E).
Proof. unfold close. logs_tac. Qed.

Lemma logs_read_names filename :
  logs_errors (in_proc (read_names_from_file E filename)).
Proof.
  intros s r s'. unfold in_proc.
  destruct (read_text E filename (world (proc s))) as [content|e] eqn:Hread.
  - rewrite (read_names_readable E _ _ _ Hread). intros H. inversion H.
    subst. exists []. split; [| reflexivity].
    split; cbn; [reflexivity | now rewrite app_nil_r].
  - rewrite (read_names_unreadable E _ _ _ Hread). intros H. inversion H.
    subst. eexists. split; [split; reflexivity | reflexivity].
Qed.

Lemma logs_dispatch args : logs_errors (dispatch E args).
Proof.
  pose proof logs_read_names. pose proof logs_process_name_list.
  pose proof logs_add_name. pose proof logs_download_configuration.
  destruct args; cbn [dispatch]; logs_tac;
    try (now apply logs_emit);
    match goal with
    | |- logs_errors (match ?l with [] => _ | _ :: _ => _ end) =>
        destruct l; logs_tac
    end.
Qed.

(** In what the [try] of [main] and its [finally] add to the trace,
    every error is logged. *)
Lemma session_logs_errors args (s : Self W) r s' :
  try_finally (dispatch E args) (close E) s = (r, s') ->
  exists out, extends s s' out /\ errors_logged out = true.
Proof.
  intros H.
  pose proof (logs_try_finally _ _ (returns_dispatch E args)
                (logs_dispatch args) logs_close s r s' H)
    as (out & Hout & Hs).
  exists out. split; [exact Hout |].
  destruct r as [a|e|]; cbn [settled] in Hs; try exact Hs.
  exfalso. revert H. unfold try_finally.
  destruct (returns_dispatch E args s) as ([] & s1 & Hrun). rewrite Hrun.
  destruct (close_quits E s1) as (s2 & failure & tail & Hclose & _).
  rewrite Hclose. discriminate.
Qed.

End LogsErrorsMethods.

(** ** What the operations add to the trace *)

Section EmitsOnly.

Context {W : Type} (E : Env W) (cfg : Config) (P : event -> bool).

Lemma emits_ret {A} (a : A) : emits_only cfg P (@ret (Self W) A a).
Proof.
  intros s r s' _ H. inversion H. subst. exists []. split; [| reflexivity].
  apply extends_refl.
Qed.

Lemma emits_emit (ev : event) :
  P ev = true -> emits_only cfg P (in_proc (W := W) (emit ev)).
Proof.
  intros HP s r s' _ H. inversion H. subst. exists [ev].
  split; [split; reflexivity |]. cbn. now rewrite HP.
Qed.

Lemma emits_logger_info msg :
  P (Log INFO msg) = true -> emits_only cfg P (@logger_info W msg).
Proof. apply emits_emit. Qed.

Lemma emits_logger_error msg :
  P (Log ERROR msg) = true -> emits_only cfg P (@logger_error W msg).
Proof. apply emits_emit. Qed.

Lemma emits_drive {A} c (f : W -> reply A * W) :
  (forall failure, P (Drv c failure) = true) -> emits_only cfg P (drive c f).
Proof.
  intros HP s r s' _ H. apply drive_inv in H as (failure & H & _).
  exists [Drv c failure]. split; [exact H |]. cbn. now rewrite HP.
Qed.

Lemma emits_bind {A B} (m : M (Self W) A) (k : A -> M (Self W) B) :
  emits_only cfg P m -> (forall a, emits_only cfg P (k a)) ->
  emits_only cfg P (bind m k).
Proof.
  intros Hm Hk s r s' Hcfg. unfold bind.
  destruct (m s) as [[a|e|] s1] eqn:Hrun; intros H;
    destruct (Hm _ _ _ Hcfg Hrun) as (out1 & H1 & HP1).
  - assert (Hcfg1 : config s1 = cfg) by (destruct H1; congruence).
    destruct (Hk a _ _ _ Hcfg1 H) as (out2 & H2 & HP2).
    exists (out1 ++ out2). split; [eapply extends_trans; eassumption |].
    now rewrite forallb_app, HP1, HP2.
  - inversion H. subst. eauto.
  - inversion H. subst. eauto.
Qed.

(** Reading [self.config] gives the configuration the method started
    with. *)
Lemma emits_config_bind {B} (k : Config -> M (Self W) B) :
  emits_only cfg P (k cfg) -> emits_only cfg P (bind self_config k).
Proof.
  intros Hk s r s' Hcfg. unfold bind, self_config. rewrite Hcfg.
  now apply Hk.
Qed.

Lemma emits_try_except {A} (body : M (Self W) A) handler :
  emits_only cfg P body -> (forall e, emits_only cfg P (handler e)) ->
  emits_only cfg P (try_except body handler).
Proof.
  intros Hb Hh s r s' Hcfg. unfold try_except.
  destruct (body s) as [[a|e|] s1] eqn:Hrun; intros H;
    destruct (Hb _ _ _ Hcfg Hrun) as (out1 & H1 & HP1).
  - inversion H. subst. eauto.
  - assert (Hcfg1 : config s1 = cfg) by (destruct H1; congruence).
    destruct (Hh e _ _ _ Hcfg1 H) as (out2 & H2 & HP2).
    exists (out1 ++ out2). split; [eapply extends_trans; eassumption |].
    now rewrite forallb_app, HP1, HP2.
  - inversion H. subst. eauto.
Qed.

Lemma emits_try_except_cls {A} cls (body handler : M (Self W) A) :
  emits_only cfg P body -> emits_only cfg P handler ->
  emits_only cfg P (try_except_cls cls body handler).
Proof.
  intros Hb Hh s r s' Hcfg. unfold try_except_cls.
  destruct (body s) as [[a|e|] s1] eqn:Hrun; intros H;
    destruct (Hb _ _ _ Hcfg Hrun) as (out1 & H1 & HP1).
  - inversion H. subst. eauto.
  - destruct (exn_class_eqb (exn_cls e) cls).
    + assert (Hcfg1 : config s1 = cfg) by (destruct H1; congruence).
      destruct (Hh _ _ _ Hcfg1 H) as (out2 & H2 & HP2).
      exists (out1 ++ out2). split; [eapply extends_trans; eassumption |].
      now rewrite forallb_app, HP1, HP2.
    + inversion H. subst. eauto.
  - inversion H. subst. eauto.
Qed.

Lemma emits_try_finally {A} (body : M (Self W) A) fin :
  emits_only cfg P body -> emits_only cfg P fin ->
  emits_only cfg P (try_finally body fin).
Proof.
  intros Hb Hf s r s' Hcfg. unfold try_finally.
  destruct (body s) as [[a|e|] s1] eqn:Hrun;
    destruct (Hb _ _ _ Hcfg Hrun) as (out1 & H1 & HP1);
    assert (Hcfg1 : config s1 = cfg) by (destruct H1; congruence);
    try (destruct (fin s1) as [[[]|e'|] s2] eqn:Hfin;
         destruct (Hf _ _ _ Hcfg1 Hfin) as (out2 & H2 & HP2));
    intros H; inversion H; subst; eauto;
    exists (out1 ++ out2);
    (split; [eapply extends_trans; eassumption |]);
    now rewrite forallb_app, HP1, HP2.
Qed.

Lemma emits_verify_download filename :
  (forall d, P (Sleep d) = true) ->
  (forall path answer, P (Look path answer) = true) ->
  emits_only cfg P (_verify_download E filename).
Proof.
  intros HP HL s r s' _ H.
  apply verify_download_extends in H as (evs & H & Hsl).
  exists evs. split; [exact H |].
  clear H. induction evs as [|ev evs IH]; [reflexivity |].
  cbn in Hsl |- *. apply andb_prop in Hsl as [Hev Hsl].
  rewrite (IH Hsl), andb_true_r.
  destruct ev; try discriminate; [apply HP | apply HL].
Qed.

End EmitsOnly.

Lemma emits_weaken {W A} (cfg : Config) (P Q : event -> bool)
    (m : M (Self W) A) :
  (forall ev, P ev = true -> Q ev = true) ->
  emits_only cfg P m -> emits_only cfg Q m.
Proof.
  intros HPQ Hm s r s' Hcfg H.
  destruct (Hm _ _ _ Hcfg H) as (out & Hext & HP).
  exists out. split; [exact Hext |].
  clear Hext. induction out as [|ev out IH]; [reflexivity |].
  cbn in HP |- *. apply andb_prop in HP as [Hev HP].
  now rewrite (HPQ _ Hev), (IH HP).
Qed.

(** The side conditions: the event at hand is one the predicate
    accepts. *)
Ltac accepted :=
  intros; cbn [op_event session_event call_or_log timeout_or existsb];
  rewrite ?String.eqb_refl, ?Z.eqb_refl; cbn [orb];
  rewrite ?orb_true_r; reflexivity.

Ltac emits_step :=
  lazymatch goal with
  | |- emits_only _ _ (bind self_config _) =>
      apply emits_config_bind; cbv beta
  | |- emits_only _ _ (bind _ _) => apply emits_bind; [| intros ?]
  | |- emits_only _ _ (try_except _ _) => apply emits_try_except; [| intros ?]
  | |- emits_only _ _ (try_except_cls _ _ _) => apply emits_try_except_cls
  | |- emits_only _ _ (try_finally _ _) => apply emits_try_finally
  | |- emits_only _ _ (let _ := _ in _) => cbv zeta
  | |- emits_only _ _ (if ?b then _ else _) => destruct b
  | |- emits_only _ _ (match ?o with Some _ => _ | None => _ end) =>
      destruct o
  | |- emits_only _ _ (ret _) => apply emits_ret
  | |- emits_only _ _ (logger_info _) => apply emits_logger_info; accepted
  | |- emits_only _ _ (logger_error _) => apply emits_logger_error; accepted
  | |- emits_only _ _ (in_proc (emit _)) => apply emits_emit; accepted
  | |- emits_only _ _ (drive _ _) => apply emits_drive; accepted
  | |- emits_only _ _ (_verify_download _ _) =>
      apply emits_verify_download; accepted
  | |- _ => solve [auto]
  end.

Ltac emits_tac := repeat emits_step.

Section OperationEvents.

Context {W : Type} (E : Env W) (cfg : Config).

Lemma emits_wait_for_element names by_ value :
  emits_only cfg (op_event names cfg) (_wait_for_element E by_ value None).
Proof. unfold _wait_for_element. emits_tac. Qed.

Lemma emits_probe names by_ value :
  emits_only cfg (op_event names cfg)
    (_wait_for_element E by_ value (Some 2)).
Proof. unfold _wait_for_element. emits_tac. Qed.

Lemma emits_login names : emits_only cfg (op_event names cfg) (login E).
Proof.
  pose proof (emits_wait_for_element names).
  pose proof (emits_probe names).
  unfold login. emits_tac.
Qed.

Lemma emits_add_name name :
  emits_only cfg (op_event [name] cfg) (add_name E name).
Proof.
  pose proof (emits_wait_for_element [name]).
  pose proof (emits_login [name]).
  unfold add_name. emits_tac.
Qed.

Lemma emits_download_configuration name :
  emits_only cfg (op_event [] cfg) (download_configuration E name).
Proof.
  pose proof (emits_wait_for_element []).
  pose proof (emits_login []).
  unfold download_configuration. emits_tac.
Qed.

Lemma op_event_session names ev :
  op_event names cfg ev = true -> session_event ev = true.
Proof.
  destruct ev as [| |c f| | | | | | | |]; try reflexivity; try discriminate.
  destruct c; try reflexivity. discriminate.
Qed.

Lemma emits_name_loop (P : event -> bool) func :
  P (PbarUpdate 1) = true ->
  (forall name, emits_only cfg P (func name)) ->
  forall names count, emits_only cfg P (name_loop (W := W) func names count).
Proof.
  intros HP Hfunc. induction names as [|name rest IH]; intros count;
    cbn [name_loop].
  - apply emits_ret.
  - apply emits_bind; [apply Hfunc | intros ok].
    apply emits_bind; [now apply emits_emit | intros _]. apply IH.
Qed.

Lemma emits_process_name_list names operation :
  emits_only cfg session_event (process_name_list E names operation).
Proof.
  unfold process_name_list, operation_map.
  destruct (String.eqb operation "add");
    [| destruct (String.eqb operation "download")]; emits_tac.
  - apply emits_name_loop; [reflexivity |]. intros name.
    eapply emits_weaken; [apply op_event_session | apply emits_add_name].
  - apply emits_name_loop; [reflexivity |]. intros name.
    eapply emits_weaken;
      [apply op_event_session | apply emits_download_configuration].
Qed.

Lemma emits_read_names filename :
  emits_only cfg session_event (in_proc (read_names_from_file E filename)).
Proof.
  intros s r s' _. unfold in_proc.
  destruct (read_text E filename (world (proc s))) as [content|e] eqn:Hread.
  - rewrite (read_names_readable E _ _ _ Hread). intros H. inversion H.
    subst. exists []. split; [| reflexivity].
    split; cbn; [reflexivity | now rewrite app_nil_r].
  - rewrite (read_names_unreadable E _ _ _ Hread). intros H. inversion H.
    subst. eexists [_]. split; [split; reflexivity | reflexivity].
Qed.

Lemma emits_dispatch args : emits_only cfg session_event (dispatch E args).
Proof.
  pose proof emits_read_names. pose proof emits_process_name_list.
  assert (forall name, emits_only cfg session_event (add_name E name))
    by (intros name; eapply emits_weaken;
        [apply op_event_session | apply emits_add_name]).
  assert (forall name,
             emits_only cfg session_event (download_configuration E name))
    by (intros name; eapply emits_weaken;
        [apply op_event_session | apply emits_download_configuration]).
  destruct args; cbn [dispatch]; emits_tac;
    match goal with
    | |- emits_only _ _ (match ?l with [] => _ | _ :: _ => _ end) =>
        destruct l; emits_tac
    end.
Qed.

End OperationEvents.

Section CallsAndLogs.

Context {W : Type} (E : Env W) (cfg : Config).

Lemma emits_wait_calls by_ value arg :
  emits_only cfg call_or_log (_wait_for_element E by_ value arg).
Proof. unfold _wait_for_element. emits_tac. Qed.

Lemma emits_login_calls : emits_only cfg call_or_log (login E).
Proof. pose proof emits_wait_calls. unfold login. emits_tac. Qed.

Lemma emits_add_name_calls name :
  emits_only cfg call_or_log (add_name E name).
Proof.
  pose proof emits_wait_calls. pose proof emits_login_calls.
  unfold add_name. emits_tac.
Qed.

Lemma calls_hold_no_look (evs : list event) :
  forallb call_or_log evs = true -> existsb look_failed evs = false.
Proof.
  induction evs as [|ev rest IH]; [reflexivity |].
  cbn [forallb existsb]. intros H. apply andb_prop in H as [Hev H].
  rewrite (IH H), orb_false_r. destruct ev; try discriminate; reflexivity.
Qed.

End CallsAndLogs.

(** ** The session: errors, answers, next item, cleanup *)

Section Session.

Context {W : Type} (E : Env W).

(** [add_name] never looks for a file. *)
Lemma add_name_no_failed_look name (s s' : Self W) r :
  add_name E name s = (r, s') ->
  exists evs, extends s s' evs /\ existsb look_failed evs = false.
Proof.
  intros H.
  destruct (emits_add_name_calls E (config s) name s r s' eq_refl H)
    as (evs & Hext & Hcalls).
  exists evs. split; [exact Hext | now apply calls_hold_no_look].
Qed.

(** When [download_configuration] answers true, no look for the file
    raised. *)
Lemma download_true_no_failed_look name (s s' : Self W) :
  download_configuration E name s = (Ret true, s') ->
  exists evs, extends s s' evs /\ existsb look_failed evs = false.
Proof.
  unfold download_configuration. intros H. apply try_except_true_inv in H.
  2:{ intros e s1 b s2 Hh. run Hh. now apply ret_inv in Hh as [<- _]. }
  step_as H logged_in.
  destruct logged_in; [| now apply ret_inv in H as [? _]].
  cbn [negb] in H.
  match goal with
  | Hl : login E s = _ |- _ =>
      destruct (emits_login_calls E (config s) s _ _ eq_refl Hl)
        as (evs0 & Hlogin & Hcalls); clear Hl
  end.
  apply calls_hold_no_look in Hcalls.
  run_as H person_element.
  destruct person_element as [person_element|].
  2:{ run H. now apply ret_inv in H as [? _]. }
  run_as H download_link. run_as H download_url. do 2 run H.
  step_as H verified.
  match goal with
  | Hv : _verify_download _ _ _ = _ |- _ =>
      pose proof (logs_verify_download E _ _ _ _ Hv) as (out & Hout & Hlogged);
      apply verify_download_extends in Hv as (looks & Hseen & Hlooks)
  end.
  assert (out = looks) as ->.
  { destruct Hout as [_ Hout]. destruct Hseen as [_ Hseen'].
    rewrite Hseen' in Hout. now apply app_inv_head in Hout. }
  cbn [settled] in Hlogged.
  pose proof (looks_without_error _ Hlooks Hlogged) as Hnone.
  destruct verified.
  2:{ run H. now apply ret_inv in H as [? _]. }
  run H. apply ret_inv in H as [_ ->].
  chain. rewrite <- ?app_assoc in *.
  eexists. split; [eassumption |].
  rewrite !existsb_app, Hcalls, Hnone. reflexivity.
Qed.

(** An operation in which a step failed answers false. *)
Lemma operations_false_when_failed (name : string) :
  (forall (s s' : Self W) (b : bool) (evs : list event),
      add_name E name s = (Ret b, s') ->
      events (proc s') = events (proc s) ++ evs ->
      operation_failed evs = true ->
      b = false)
  /\ (forall (s s' : Self W) (b : bool) (evs : list event),
        download_configuration E name s = (Ret b, s') ->
        events (proc s') = events (proc s) ++ evs ->
        operation_failed evs = true ->
        b = false).
Proof.
  destruct (operations_false_after_failed_step E name)
    as (_ & _ & Hadd & Hdl).
  split; intros s s' b evs Hrun Hevs Hfail;
    apply orb_true_iff in Hfail as [Hstep|Hlook];
    try (now eauto).
  - apply add_name_no_failed_look in Hrun as (evs' & [_ Hev'] & Hnone).
    rewrite Hevs in Hev'. apply app_inv_head in Hev'. congruence.
  - destruct b; [exfalso | reflexivity].
    apply download_true_no_failed_look in Hrun as (evs' & [_ Hev'] & Hnone).
    rewrite Hevs in Hev'. apply app_inv_head in Hev'. congruence.
Qed.

(** What [close] adds to the trace: the call to quit, and the error
    line if the call raised. *)
Lemma close_steps (s : Self W) :
  exists s' failure,
    close E s = (Ret tt, s')
    /\ extends s s' (Drv DriverQuit failure :: quit_report failure).
Proof.
  unfold close, try_except, drive, logger_error, in_proc, emit.
  destruct (drv_quit E (world (proc s))) as [[[]|e] w]; cbn.
  - eexists _, None. repeat split.
  - eexists _, (Some e). split; [reflexivity |]. split; cbn; [reflexivity |].
    now rewrite <- app_assoc.
Qed.

(** The name list that [main] obtains: empty with an error line when
    the file cannot be read, the stripped non-blank lines otherwise. *)
Lemma read_names_steps filename (p : Proc W) :
  exists names p0 out,
    read_names_from_file E filename p = (Ret names, p0)
    /\ world p0 = world p
    /\ events p0 = events p ++ out
    /\ match read_text E filename (world p) with
       | Ok content =>
           names = stripped_nonempty (Py.file_lines content) /\ out = []
       | Fail e =>
           names = []
           /\ out = [RootLog ERROR
                       ("Error reading names from file: " +:+ exn_str e)]
       end.
Proof.
  destruct (read_text E filename (world p)) as [content|e] eqn:Hread.
  - rewrite (read_names_readable E _ _ _ Hread).
    exists (stripped_nonempty (Py.file_lines content)), p, [].
    repeat split. now rewrite app_nil_r.
  - rewrite (read_names_unreadable E _ _ _ Hread).
    eexists [], _, [_]. repeat split.
Qed.

(** A list sub-command reads its names, then either stops with an
    error line or runs the operation on every name. *)
Lemma dispatch_list_steps (args : Args) filename operation cfg
    (p1 : Proc W) (s1 : Self W) :
  (args = AddList filename /\ operation = "add")
  \/ (args = DownloadList filename /\ operation = "download") ->
  dispatch E args (MkSelf cfg p1) = (Ret tt, s1) ->
  forall func,
    operation_map E operation = Some func ->
    (forall name, returns (func name)) ->
    list_session E operation func filename cfg p1 s1.
Proof.
  intros Hargs Hrun func Hmap Hfunc.
  assert (Hd : dispatch E args
               = bind (in_proc (read_names_from_file E filename))
                   (fun names =>
                      match names with
                      | [] => logger_error "No valid names found in file"
                      | _ :: _ => process_name_list E names operation
                      end))
    by (destruct Hargs as [[-> ->] | [-> ->]]; reflexivity).
  rewrite Hd in Hrun. clear Hd. unfold bind, in_proc in Hrun.
  cbn [proc config] in Hrun.
  destruct (read_names_steps filename p1)
    as (names & p0 & out & Hread & _ & Hout & Hfile).
  rewrite Hread in Hrun.
  exists names, p0, out. repeat split; try assumption.
  destruct names as [|name rest].
  - now apply logger_error_inv in Hrun as [_ Hrun].
  - destruct (process_name_list_steps E (name :: rest) operation
                (MkSelf cfg p0) func Hmap Hfunc)
      as (oks & sa & sb & s' & Hopen & Hbatch & _ & Hall & Hclose).
    rewrite Hall in Hrun. injection Hrun as <-.
    exists oks, sa, sb. repeat split; try assumption;
      try apply Hopen; try apply Hclose.
    eapply batch_run_length; eassumption.
Qed.

(** C8, as amended.  [main] always ends, in one of two ways.

    Either [startup] raised: then [main] raises that exception, no call
    was made on the browser, and the cause is one of: the configuration
    file cannot be read, one of its lines has no [=], the key [IP] or
    [password] is missing, the download directory cannot be created,
    the browser does not start.

    Or [startup] returned a configuration, and the browser operations
    begin.  Then [main] returns: no exception leaves it.  In what it
    adds to the trace every error (a call on the browser or a look for
    a file that raised) is followed at once by an error line of the
    logger.  The body of the [try] returns, and the cleanup follows it:
    the browser is asked to quit, and if that call raises, the error is
    logged.  The body did what the sub-command asks: [add-one] and
    [download-one] ran their operation, which returned a boolean; the
    list sub-commands read the names, logged an error for a file that
    cannot be read, stopped with the error "No valid names found in
    file" when there was no name, and otherwise ran the operation on
    every name of the list in turn, whatever the answers were, each run
    returning a boolean.

    Whatever the state, an operation in which a step failed (a call on
    the browser raised, the time-out of the opening probe of [login]
    apart, or a look for the downloaded file raised) returns false. *)
Theorem only_startup_failures_escape (args : Args) (p : Proc W) :
  ((exists cfg p1 s1 p' evs failure,
       startup E p = (Ret cfg, p1)
       /\ main E args p = (Ret tt, p')
       /\ events p' = events p1 ++ evs
       /\ errors_logged evs = true
       /\ In (Drv DriverQuit failure) evs
       /\ dispatch E args (MkSelf cfg p1) = (Ret tt, s1)
       /\ events p'
          = events (proc s1) ++ Drv DriverQuit failure :: quit_report failure
       /\ match args with
          | AddList filename =>
              list_session E "add" (add_name E) filename cfg p1 s1
          | DownloadList filename =>
              list_session E "download" (download_configuration E)
                filename cfg p1 s1
          | AddOne name =>
              exists b, add_name E name (MkSelf cfg p1) = (Ret b, s1)
          | DownloadOne name =>
              exists b,
                download_configuration E name (MkSelf cfg p1) = (Ret b, s1)
          | NoCommand => extends (MkSelf cfg p1) s1 [PrintHelp]
          end)
   \/ (exists e p' evs,
         startup E p = (Raise e, p')
         /\ main E args p = (Raise e, p')
         /\ startup_failure E p e
         /\ events p' = events p ++ evs
         /\ forallb (fun ev => negb (is_call ev)) evs = true))
  /\ (forall name (s s' : Self W) (b : bool) (evs : list event),
        add_name E name s = (Ret b, s') ->
        events (proc s') = events (proc s) ++ evs ->
        operation_failed evs = true ->
        b = false)
  /\ (forall name (s s' : Self W) (b : bool) (evs : list event),
        download_configuration E name s = (Ret b, s') ->
        events (proc s') = events (proc s) ++ evs ->
        operation_failed evs = true ->
        b = false).
Proof.
  split.
  2:{ split; intros name; apply (operations_false_when_failed name). }
  rewrite main_phases. unfold bind.
  pose proof (startup_halts E p) as Hhalts.
  destruct (startup E p) as [[cfg|e|] p1] eqn:Hstart; cbn [fst] in Hhalts.
  - left.
    destruct (returns_dispatch E args (MkSelf cfg p1)) as ([] & s1 & Hrun).
    destruct (close_steps s1) as (s2 & failure & Hclose & Hquit).
    assert (Hsession : try_finally (dispatch E args) (close E) (MkSelf cfg p1)
                       = (Ret tt, s2))
      by (unfold try_finally; now rewrite Hrun, Hclose).
    destruct (session_logs_errors E args _ _ _ Hsession)
      as (evs & [_ Hevs] & Hlogged).
    cbn [proc events] in Hevs.
    destruct (keeps_dispatch E args _ _ _ Hrun) as (out & _ & Hout).
    cbn [proc events] in Hout.
    exists cfg, p1, s1, (proc s2), evs, failure.
    split; [reflexivity |].
    split; [unfold session, with_self; now rewrite Hsession |].
    split; [exact Hevs |]. split; [exact Hlogged |].
    split.
    { destruct Hquit as [_ Hquit]. rewrite Hquit, Hout in Hevs.
      rewrite <- app_assoc in Hevs. apply app_inv_head in Hevs. subst evs.
      apply in_or_app. right. now left. }
    split; [exact Hrun |]. split; [apply Hquit |].
    destruct args as [filename|name|filename|name|].
    + apply (dispatch_list_steps (AddList filename) filename "add");
        [now left | exact Hrun | reflexivity |].
      intros name. apply returns_add_name.
    + cbn [dispatch] in Hrun. unfold bind in Hrun.
      destruct (returns_add_name E name (MkSelf cfg p1)) as (b & s' & Hop).
      rewrite Hop in Hrun. apply ret_inv in Hrun as [_ <-]. now exists b.
    + apply (dispatch_list_steps (DownloadList filename) filename "download");
        [now right | exact Hrun | reflexivity |].
      intros name. apply returns_download_configuration.
    + cbn [dispatch] in Hrun. unfold bind in Hrun.
      destruct (returns_download_configuration E name (MkSelf cfg p1))
        as (b & s' & Hop).
      rewrite Hop in Hrun. apply ret_inv in Hrun as [_ <-]. now exists b.
    + cbn [dispatch] in Hrun. inversion Hrun. split; reflexivity.
  - right. apply startup_raise_inv in Hstart as (Hwhy & evs & Hev & Hno).
    exists e, p1, evs. repeat split; assumption.
  - congruence.
Qed.

End Session.

(** On the simulated panel without its add button, [add-one] ends
    without raising: the waits that time out are logged, the operation
    answers false, and the browser is asked to quit. *)
Example main_logs_the_missing_button :
  exists p',
    main Sim.E_no_button (AddOne "alice") Sim.fresh = (Ret tt, p')
    /\ existsb is_error (events p') = true
    /\ errors_logged (events p') = true
    /\ existsb is_quit (events p') = true
    /\ fst (add_name Sim.E_no_button "alice"
              (MkSelf Sim.cfg0 (snd (startup Sim.E_no_button Sim.fresh))))
       = Ret false.
Proof. eexists. repeat split; vm_compute; reflexivity. Qed.

(** ** Further properties: the configuration file *)

Section ReadInfo.

Context {W : Type} (E : Env W).

Lemma relevant_spec (line : string) :
  Py.truthy (Py.strip line)
  && negb (Py.startswith_char "#" (Py.strip line))
  = relevant line.
Proof. unfold relevant, is_comment. now rewrite truthy_strip. Qed.

Lemma read_info_loop_cons (line : string) (rest : list string)
    (info : gmap string string) :
  read_info_loop (line :: rest) info
  = if relevant line then
      match unpack2 (Py.split1 "=" (Py.strip line)) with
      | Ret (key, value) =>
          read_info_loop rest (<[Py.strip key := Py.strip value]> info)
      | Raise e => Raise e
      | Diverge => Diverge
      end
    else read_info_loop rest info.
Proof. cbn [read_info_loop]. now rewrite relevant_spec. Qed.

Lemma read_info_loop_relevant (lines : list string) :
  forall info,
    read_info_loop lines info
    = read_info_loop (List.filter relevant lines) info.
Proof.
  induction lines as [|l ls IH]; intros info; [reflexivity |].
  rewrite read_info_loop_cons. cbn [List.filter].
  destruct (relevant l) eqn:Hl; [| apply IH].
  rewrite read_info_loop_cons, Hl.
  destruct (unpack2 (Py.split1 "=" (Py.strip l))) as [[k v]|e|];
    [apply IH | reflexivity | reflexivity].
Qed.

Lemma read_info_readable (path : string) (p : Proc W) (content : string) :
  read_text E path (world p) = Ok content ->
  read_info E path p = (read_info_loop (Py.file_lines content) ∅, p).
Proof.
  intros H. unfold read_info, open_lines, bind. rewrite H.
  now destruct (read_info_loop (Py.file_lines content) ∅).
Qed.

Lemma read_info_unreadable (path : string) (p : Proc W) (e : exn) :
  read_text E path (world p) = Fail e -> read_info E path p = (Raise e, p).
Proof. intros H. unfold read_info, open_lines, bind. now rewrite H. Qed.

Lemma split1_parts (sep : ascii) (k v : string) :
  Py.contains_char sep k = false ->
  Py.split1 sep (k +:+ String sep v) = [k; v].
Proof.
  induction k as [|c k IH]; intros Hk.
  - rewrite append_nil_l. simpl. destruct (ascii_dec sep sep); congruence.
  - rewrite append_cons. simpl in Hk |- *.
    destruct (ascii_dec c sep); [discriminate |]. now rewrite (IH Hk).
Qed.

Lemma split1_two_inv (sep : ascii) (s a b : string) :
  Py.split1 sep s = [a; b] ->
  s = a +:+ String sep b /\ Py.contains_char sep a = false.
Proof.
  revert a. induction s as [|c r IH]; intros a; simpl; [discriminate |].
  destruct (ascii_dec c sep) as [->|Hne].
  - intros H. inversion H. subst. split; reflexivity.
  - destruct (Py.split1 sep r) as [|p ps] eqn:Hr; [discriminate |].
    intros H. inversion H. subst.
    destruct (IH p eq_refl) as [-> Hp].
    split; [reflexivity |]. simpl. destruct (ascii_dec c sep); congruence.
Qed.

Lemma unpack2_ret_inv (pieces : list string) (k v : string) :
  unpack2 pieces = Ret (k, v) -> pieces = [k; v].
Proof.
  destruct pieces as [|a [|b [|c r]]]; simpl; intros H; inversion H.
  reflexivity.
Qed.

(** The step of the loop on a line that reads [key=value]. *)
Lemma read_info_loop_assignment (line key value : string)
    (rest : list string) (info : gmap string string) :
  assignment line key value ->
  read_info_loop (line :: rest) info
  = read_info_loop rest (<[key := value]> info).
Proof.
  intros (Hrel & k & v & Hline & Hk & -> & ->).
  rewrite read_info_loop_cons, Hrel, Hline, (split1_parts _ _ _ Hk).
  reflexivity.
Qed.

Lemma read_info_loop_app (before after : list string) :
  forall info,
    read_info_loop (before ++ after) info
    = match read_info_loop before info with
      | Ret info' => read_info_loop after info'
      | Raise e => Raise e
      | Diverge => Diverge
      end.
Proof.
  induction before as [|l ls IH]; intros info; [reflexivity |].
  rewrite <- app_comm_cons, !read_info_loop_cons.
  destruct (relevant l); [| apply IH].
  destruct (unpack2 (Py.split1 "=" (Py.strip l))) as [[k v]|e|];
    [apply IH | reflexivity | reflexivity].
Qed.

(** Lines that do not assign [key] leave its entry alone. *)
Lemma read_info_loop_other_keys (key : string) (lines : list string) :
  forallb (fun l => negb (assigns key l)) lines = true ->
  forall info info',
    read_info_loop lines info = Ret info' -> info' !! key = info !! key.
Proof.
  induction lines as [|l ls IH]; intros Hno info info'.
  - simpl. intros H. now inversion H.
  - cbn [forallb] in Hno. apply andb_prop in Hno as [Hl Hno].
    rewrite read_info_loop_cons.
    destruct (relevant l) eqn:Hrel; [| now apply IH].
    destruct (unpack2 (Py.split1 "=" (Py.strip l))) as [[k v]|e|] eqn:Hu;
      [| discriminate | discriminate].
    intros H. rewrite (IH Hno _ _ H).
    apply lookup_insert_ne. intros Heq.
    apply unpack2_ret_inv in Hu.
    unfold assigns in Hl. rewrite relevant_spec, Hrel, Hu in Hl.
    cbn in Hl. apply negb_true_iff in Hl.
    apply String.eqb_neq in Hl. congruence.
Qed.

Lemma read_info_loop_well_formed (lines : list string) :
  forallb (fun l => negb (malformed l)) lines = true ->
  forall info, exists info', read_info_loop lines info = Ret info'.
Proof.
  induction lines as [|l ls IH]; intros Hok info; [now exists info |].
  cbn [forallb] in Hok. apply andb_prop in Hok as [Hl Hok].
  rewrite read_info_loop_cons.
  destruct (relevant l) eqn:Hrel; [| now apply IH].
  unfold malformed in Hl. rewrite relevant_spec, Hrel in Hl.
  cbn in Hl. rewrite negb_involutive in Hl.
  destruct (split1_with _ _ Hl) as (a & b & -> & _). cbn. now apply IH.
Qed.

Lemma some_line_malformed (lines : list string) :
  forallb (fun l => negb (malformed l)) lines = false ->
  Exists (fun l => malformed l = true) lines.
Proof.
  induction lines as [|l ls IH]; [discriminate |]. cbn [forallb].
  destruct (malformed l) eqn:Hl; [now left | right; now apply IH].
Qed.

Lemma read_info_loop_origin (key value : string) (lines : list string) :
  forall info info',
    read_info_loop lines info = Ret info' ->
    info' !! key = Some value ->
    info !! key = Some value
    \/ exists line, In line lines /\ assignment line key value.
Proof.
  induction lines as [|l ls IH]; intros info info'.
  - simpl. intros H. inversion H. now left.
  - rewrite read_info_loop_cons.
    destruct (relevant l) eqn:Hrel.
    + destruct (unpack2 (Py.split1 "=" (Py.strip l))) as [[k v]|e|] eqn:Hu;
        [| discriminate | discriminate].
      intros Hrun Hget.
      destruct (IH _ _ Hrun Hget) as [Hin | (line & Hin & Hline)].
      * destruct (decide (Py.strip k = key)) as [Hk|Hk].
        -- subst key. rewrite lookup_insert_eq in Hin. inversion Hin.
           right. exists l. split; [now left |].
           apply unpack2_ret_inv, split1_two_inv in Hu as [Hs Hc].
           split; [exact Hrel |]. exists k, v. repeat split; assumption.
        -- rewrite lookup_insert_ne in Hin by exact Hk. now left.
      * right. exists line. split; [now right | exact Hline].
    + intros Hrun Hget.
      destruct (IH _ _ Hrun Hget) as [Hin | (line & Hin & Hline)];
        [now left |].
      right. exists line. split; [now right | exact Hline].
Qed.

(** X1.  Two configuration files that differ only in blank lines and in
    comment lines are read alike: same dictionary, or same failure. *)
Theorem read_info_ignores_blank_and_comment_lines
    (path path' : string) (p : Proc W) (content content' : string) :
  read_text E path (world p) = Ok content ->
  read_text E path' (world p) = Ok content' ->
  List.filter relevant (Py.file_lines content)
  = List.filter relevant (Py.file_lines content') ->
  read_info E path p = read_info E path' p.
Proof.
  intros H H' Hsame.
  rewrite (read_info_readable _ _ _ H), (read_info_readable _ _ _ H').
  rewrite (read_info_loop_relevant (Py.file_lines content)).
  rewrite (read_info_loop_relevant (Py.file_lines content')).
  now rewrite Hsame.
Qed.

(** X2.  [read_info] returns a dictionary exactly when the file can be read
    and each of its lines that is neither blank nor a comment has an
    [=]; it leaves the process as it found it. *)
Theorem read_info_returns_iff_well_formed (path : string) (p : Proc W) :
  (exists info, read_info E path p = (Ret info, p))
  <-> (exists content,
         read_text E path (world p) = Ok content
         /\ forallb (fun l => negb (malformed l)) (Py.file_lines content)
            = true).
Proof.
  split.
  - intros (info & Hrun).
    destruct (read_text E path (world p)) as [content|e] eqn:Hread.
    + exists content. split; [reflexivity |].
      destruct (forallb (fun l => negb (malformed l)) (Py.file_lines content))
        eqn:Hok; [reflexivity |].
      apply some_line_malformed in Hok.
      destruct (read_info_loop_malformed _ Hok ∅) as (e & He & _).
      rewrite (read_info_readable _ _ _ Hread), He in Hrun. discriminate.
    + rewrite (read_info_unreadable _ _ _ Hread) in Hrun. discriminate.
  - intros (content & Hread & Hok).
    destruct (read_info_loop_well_formed _ Hok ∅) as (info & Hinfo).
    exists info. now rewrite (read_info_readable _ _ _ Hread), Hinfo.
Qed.

(** X3.  The last line that assigns a key decides its entry: if a line
    reads [key=value] and no line after it assigns [key], the
    dictionary that [read_info] returns maps [key] to [value]. *)
Theorem read_info_last_assignment_wins
    (path : string) (p p' : Proc W) (content : string)
    (before after : list string) (line key value : string)
    (info : gmap string string) :
  read_text E path (world p) = Ok content ->
  Py.file_lines content = before ++ line :: after ->
  assignment line key value ->
  forallb (fun l => negb (assigns key l)) after = true ->
  read_info E path p = (Ret info, p') ->
  info !! key = Some value.
Proof.
  intros Hread Hlines Hline Hafter Hrun.
  rewrite (read_info_readable _ _ _ Hread), Hlines in Hrun.
  inversion Hrun as [[Hloop Hp]]. clear Hrun Hp.
  rewrite read_info_loop_app in Hloop.
  destruct (read_info_loop before ∅) as [mid|e|]; try discriminate.
  rewrite (read_info_loop_assignment _ _ _ _ _ Hline) in Hloop.
  rewrite (read_info_loop_other_keys key after Hafter _ _ Hloop).
  apply lookup_insert_eq.
Qed.

(** X4.  Every entry of the dictionary that [read_info] returns comes from
    a line of the file that reads [key=value]. *)
Theorem read_info_entries_come_from_lines
    (path : string) (p p' : Proc W) (info : gmap string string)
    (key value : string) :
  read_info E path p = (Ret info, p') ->
  info !! key = Some value ->
  exists content line,
    read_text E path (world p) = Ok content
    /\ In line (Py.file_lines content)
    /\ assignment line key value.
Proof.
  intros Hrun Hget.
  destruct (read_text E path (world p)) as [content|e] eqn:Hread.
  - rewrite (read_info_readable _ _ _ Hread) in Hrun.
    inversion Hrun as [[Hloop Hp]].
    destruct (read_info_loop_origin key value _ _ _ Hloop Hget)
      as [Hin | (line & Hin & Hline)].
    + rewrite lookup_empty in Hin. discriminate.
    + now exists content, line.
  - rewrite (read_info_unreadable _ _ _ Hread) in Hrun. discriminate.
Qed.

End ReadInfo.

Lemma read_info_ignores_blank_and_comment_lines_witness :
  read_info Sim.E_two "info.txt" Sim.fresh
  = read_info Sim.E_two "bare.txt" Sim.fresh.
Proof.
  apply (read_info_ignores_blank_and_comment_lines Sim.E_two "info.txt"
           "bare.txt" Sim.fresh Sim.info_txt Sim.bare_info_txt);
    vm_compute; reflexivity.
Defined.

Lemma read_info_last_assignment_wins_witness :
  (<["password" := "secret"]> (<["IP" := "10.0.0.1"]> ∅)
   : gmap string string) !! "IP" = Some "10.0.0.1".
Proof.
  apply (read_info_last_assignment_wins Sim.E0 "info.txt" Sim.fresh Sim.fresh
           Sim.info_txt
           ["# panel" +:+ Sim.nl] ["password = secret" +:+ Sim.nl]
           ("IP=10.0.0.1" +:+ Sim.nl) "IP" "10.0.0.1").
  - reflexivity.
  - reflexivity.
  - split; [reflexivity |]. exists "IP", "10.0.0.1". repeat split.
  - reflexivity.
  - vm_compute. reflexivity.
Defined.

Lemma read_info_entries_come_from_lines_witness :
  exists content line,
    read_text Sim.E0 "info.txt" (world Sim.fresh) = Ok content
    /\ In line (Py.file_lines content)
    /\ assignment line "password" "secret".
Proof.
  apply (read_info_entries_come_from_lines Sim.E0 "info.txt" Sim.fresh
           Sim.fresh
           (<["password" := "secret"]> (<["IP" := "10.0.0.1"]> ∅))).
  - vm_compute. reflexivity.
  - vm_compute. reflexivity.
Defined.

(** ** Further properties: the wait for a download *)

Section VerifyTiming.

Context {W : Type} (E : Env W).

(** What a run of the loop has done by the time it ends, however it
    ends. *)
Lemma verify_loop_timing (path : string) (start : Z) (fuel : nat) :
  forall (s s' : Self W) (r : outcome bool),
    verify_loop E fuel path start s = (r, s') ->
    exists evs,
      events (proc s') = events (proc s) ++ evs
      /\ forallb look_or_sleep evs = true
      /\ 1000 * Z.of_nat (length (List.filter is_sleep evs))
         <= Z.max 0 (download_wait (config s) * 1000
                     - (clock (proc s) - start) + 999)
      /\ 1000 * Z.of_nat (length (List.filter is_sleep evs))
         <= clock (proc s') - clock (proc s)
      /\ (r = Ret false ->
          download_wait (config s) * 1000 <= clock (proc s') - start)
      /\ (r = Ret true ->
          clock (proc s') - start < download_wait (config s) * 1000
          /\ fs_exists E path (world (proc s)) (clock (proc s')) = Ok true
          /\ exists before, evs = before ++ [Look path (Ok true)]).
Proof.
  induction fuel as [|fuel IH]; intros s s' r.
  { intros H. inversion H. subst. exists []. cbn.
    rewrite app_nil_r. repeat split; try lia; discriminate. }
  destruct s as [cfg [w now evs0]].
  cbn [verify_loop]. unfold bind at 1, time_time at 1. cbn [proc clock].
  unfold bind at 1, self_config at 1. cbn [config].
  destruct (now - start <? download_wait cfg * 1000) eqn:Hin.
  - apply Z.ltb_lt in Hin.
    unfold bind at 1, path_exists at 1. cbn [proc clock world events config].
    destruct (fs_exists E path w now) as [[|]|e] eqn:Hlook.
    + intros H. inversion H. subst. eexists [_].
      cbn [proc clock world events config forallb look_or_sleep andb
             List.filter is_sleep length].
      split; [reflexivity |]. split; [reflexivity |].
      cbn. repeat split; try lia; try discriminate; [exact Hlook |].
      now exists [].
    + unfold bind at 1, time_sleep_1 at 1.
      cbn [proc clock world events config].
      set (d := 1000 + Z.of_N (oversleep E now)).
      intros H. apply IH in H as (evs & Hev & Hsl & Hn & Hc & Hf & Ht).
      cbn [proc clock world events config] in *.
      exists (Look path (Ok false) :: Sleep d :: evs).
      rewrite Hev, <- !app_assoc.
      split; [reflexivity |]. split; [exact Hsl |].
      cbn [List.filter is_sleep length]. rewrite Nat2Z.inj_succ. subst d.
      split; [lia |]. split; [lia |]. split; [tauto |].
      intros Hr. destruct (Ht Hr) as (Hlt & Hex & before & ->).
      split; [lia |]. split; [exact Hex |].
      now exists (Look path (Ok false)
                  :: Sleep (1000 + Z.of_N (oversleep E now)) :: before).
    + intros H. inversion H. subst. eexists [_].
      cbn [proc clock world events config forallb look_or_sleep andb
             List.filter is_sleep length].
      split; [reflexivity |]. split; [reflexivity |].
      cbn. repeat split; try lia; discriminate.
  - apply Z.ltb_ge in Hin. intros H. inversion H. subst. exists []. cbn.
    rewrite app_nil_r. repeat split; try lia; discriminate.
Qed.

Lemma poll_instant_exact (start : Z) :
  (forall t, oversleep E t = 0%N) ->
  forall k, poll_instant E start k = start + 1000 * Z.of_nat k.
Proof.
  intros Hexact k. revert start.
  induction k as [|k IH]; intros start; cbn [poll_instant]; [lia |].
  rewrite IH, Hexact. lia.
Qed.


(** X6.  A false answer of [_verify_download] comes only once
    [download_wait] seconds have passed since the call; a true answer
    comes at an instant of the window at which the file is there. *)
Theorem verify_download_answer_timing
    (filename : string) (s s' : Self W) (b : bool) :
  _verify_download E filename s = (Ret b, s') ->
  (b = false ->
   download_wait (config s) * 1000 <= clock (proc s') - clock (proc s))
  /\ (b = true ->
      in_window s (clock (proc s'))
      /\ file_present E s filename (clock (proc s'))).
Proof.
  unfold _verify_download.
  unfold bind at 1, self_config at 1. unfold bind at 1, time_time at 1.
  intros H. apply verify_loop_timing in H as (evs & _ & _ & _ & Hc & Hf & Ht).
  split; [intros ->; now apply Hf |].
  intros ->. destruct (Ht eq_refl) as (Hlt & Hex & _).
  split; [unfold in_window; lia | exact Hex].
Qed.

(** X7.  With sleeps of exactly one second, a file that is there from
    some instant on, that instant being a second or more before the
    window closes, is seen, unless [exists()] raises at a look before
    that instant: the answer is true, or the run ends with the
    exception of such a look.  So when [exists()] raises at no instant
    of the window before the file is there, the answer is true. *)
Theorem verify_download_sees_file_with_a_second_to_spare
    (filename : string) (s : Self W) (landed : Z) :
  (forall t, oversleep E t = 0%N) ->
  clock (proc s) <= landed ->
  landed - clock (proc s) <= 1000 * (download_wait (config s) - 1) ->
  (forall t, landed <= t -> in_window s t -> file_present E s filename t) ->
  ((exists s', _verify_download E filename s = (Ret true, s'))
   \/ (exists e s' t,
         _verify_download E filename s = (Raise e, s')
         /\ in_window s t /\ t < landed
         /\ look_fails E s filename t e))
  /\ ((forall t e,
         in_window s t -> t < landed -> ~ look_fails E s filename t e) ->
      exists s', _verify_download E filename s = (Ret true, s')).
Proof.
  intros Hexact Hafter Hspare Hstays.
  assert (Hends :
            (exists s', _verify_download E filename s = (Ret true, s'))
            \/ (exists e s' t,
                  _verify_download E filename s = (Raise e, s')
                  /\ in_window s t /\ t < landed
                  /\ look_fails E s filename t e)).
  { destruct (verify_download_spec E filename s)
      as (r & s' & Hrun & _ & _ & _ & Hr).
    set (start := clock (proc s)) in *.
    destruct r as [[|]|e|]; cbn [verdict] in Hr.
    - left. now exists s'.
    - exfalso.
      set (q := (landed - start + 999) / 1000).
      assert (Hq : 1000 * q <= landed - start + 999 < 1000 * q + 1000).
      { pose proof (Z_div_mod_eq_full (landed - start + 999) 1000).
        pose proof (Z.mod_pos_bound (landed - start + 999) 1000).
        subst q. lia. }
      specialize (Hr (Z.to_nat q)).
      rewrite (poll_instant_exact start Hexact) in Hr.
      rewrite Z2Nat.id in Hr by lia.
      assert (Hthere : file_present E s filename (start + 1000 * q))
        by (apply Hstays; [lia |]; unfold in_window; fold start; lia).
      unfold file_present in Hthere. rewrite Hr in Hthere by lia.
      discriminate.
    - right. destruct Hr as (k & Hk & Hlook & _).
      exists e, s', (poll_instant E start k).
      pose proof (poll_instant_ge E k start) as Hge.
      assert (Hin : in_window s (poll_instant E start k))
        by (unfold in_window; fold start; lia).
      repeat split; try assumption; try apply Hin.
      destruct (Z_lt_ge_dec (poll_instant E start k) landed) as [Hlt|Hge'];
        [exact Hlt | exfalso].
      assert (Hthere : file_present E s filename (poll_instant E start k))
        by (apply Hstays; [lia | exact Hin]).
      unfold file_present in Hthere. rewrite Hlook in Hthere. discriminate.
    - contradiction. }
  split; [exact Hends |].
  intros Hquiet. destruct Hends as [Htrue | (e & s' & t & _ & Hin & Hlt & Hf)];
    [exact Htrue |].
  now destruct (Hquiet t e Hin Hlt).
Qed.

End VerifyTiming.

Lemma verify_download_answer_timing_witness :
  (true = false ->
   download_wait (config Sim.self0) * 1000
   <= clock (proc (snd (_verify_download Sim.E0 "alice.conf" Sim.self0)))
      - clock (proc Sim.self0))
  /\ (true = true ->
      in_window Sim.self0
        (clock (proc (snd (_verify_download Sim.E0 "alice.conf" Sim.self0))))
      /\ file_present Sim.E0 Sim.self0 "alice.conf"
           (clock (proc (snd (_verify_download Sim.E0 "alice.conf"
                                Sim.self0))))).
Proof.
  apply (verify_download_answer_timing Sim.E0 "alice.conf" Sim.self0).
  vm_compute. reflexivity.
Defined.

Lemma verify_download_sees_file_with_a_second_to_spare_witness :
  ((exists s', _verify_download Sim.E0 "alice.conf" Sim.self0 = (Ret true, s'))
   \/ (exists e s' t,
         _verify_download Sim.E0 "alice.conf" Sim.self0 = (Raise e, s')
         /\ in_window Sim.self0 t /\ t < 3000
         /\ look_fails Sim.E0 Sim.self0 "alice.conf" t e))
  /\ ((forall t e,
         in_window Sim.self0 t -> t < 3000 ->
         ~ look_fails Sim.E0 Sim.self0 "alice.conf" t e) ->
      exists s', _verify_download Sim.E0 "alice.conf" Sim.self0 = (Ret true, s')).
Proof.
  apply (verify_download_sees_file_with_a_second_to_spare Sim.E0 "alice.conf"
           Sim.self0 3000).
  - reflexivity.
  - simpl. lia.
  - simpl. lia.
  - intros t Ht _. unfold file_present. cbn. f_equal. now apply Z.leb_le.
Defined.

(** Where [exists()] raises before the file is there, the run ends with
    that exception although the file would have been seen in time. *)
Example verify_download_stopped_by_a_failing_look :
  (forall t, 3000 <= t -> in_window Sim.self0 t ->
             file_present Sim.E_blinded Sim.self0 "alice.conf" t)
  /\ fst (_verify_download Sim.E_blinded "alice.conf" Sim.self0)
     = Raise Sim.denied.
Proof.
  split; [| vm_compute; reflexivity].
  intros t Ht _. unfold file_present. cbn.
  destruct (t <? 3000) eqn:Hlt; [apply Z.ltb_lt in Hlt; lia | reflexivity].
Qed.

Section OperationProperties.

Context {W : Type} (E : Env W).

Lemma forallb_In {A} (P : A -> bool) (l : list A) (x : A) :
  forallb P l = true -> In x l -> P x = true.
Proof. intros H Hin. rewrite forallb_forall in H. now apply H. Qed.

(** X8.  Whatever happens, the only texts that the operations type into the
    page are the configured password and, for [add_name], the name to
    add. *)
Theorem operations_type_only_password_and_name (name : string) :
  (forall (s s' : Self W) r,
      login E s = (r, s') ->
      exists out,
        events (proc s') = events (proc s) ++ out
        /\ forall ev text,
             In ev out -> typed_text ev = Some text ->
             text = password (config s))
  /\ (forall (s s' : Self W) r,
        add_name E name s = (r, s') ->
        exists out,
          events (proc s') = events (proc s) ++ out
          /\ forall ev text,
               In ev out -> typed_text ev = Some text ->
               text = password (config s) \/ text = name)
  /\ (forall (s s' : Self W) r,
        download_configuration E name s = (r, s') ->
        exists out,
          events (proc s') = events (proc s) ++ out
          /\ forall ev text,
               In ev out -> typed_text ev = Some text ->
               text = password (config s)).
Proof.
  repeat split; intros s s' r H.
  - destruct (emits_login E (config s) [] _ _ _ eq_refl H)
      as (out & [_ Hev] & HP).
    exists out. split; [exact Hev |]. intros ev text Hin Ht.
    pose proof (forallb_In _ _ _ HP Hin) as Hok.
    destruct ev as [| |[] f| | | | | | | |]; try discriminate.
    cbn in Ht, Hok. inversion Ht. subst. rewrite orb_false_r in Hok.
    now apply String.eqb_eq.
  - destruct (emits_add_name E (config s) name _ _ _ eq_refl H)
      as (out & [_ Hev] & HP).
    exists out. split; [exact Hev |]. intros ev text Hin Ht.
    pose proof (forallb_In _ _ _ HP Hin) as Hok.
    destruct ev as [| |[] f| | | | | | | |]; try discriminate.
    cbn in Ht, Hok. inversion Ht. subst. rewrite orb_false_r in Hok.
    apply orb_true_iff in Hok as [Hok|Hok]; apply String.eqb_eq in Hok;
      [now left | now right].
  - destruct (emits_download_configuration E (config s) name _ _ _ eq_refl H)
      as (out & [_ Hev] & HP).
    exists out. split; [exact Hev |]. intros ev text Hin Ht.
    pose proof (forallb_In _ _ _ HP Hin) as Hok.
    destruct ev as [| |[] f| | | | | | | |]; try discriminate.
    cbn in Ht, Hok. inversion Ht. subst. rewrite orb_false_r in Hok.
    now apply String.eqb_eq.
Qed.

Lemma emitted_waits_bounded {A} names (op : M (Self W) A) (s s' : Self W) r :
  emits_only (config s) (op_event names (config s)) op ->
  op s = (r, s') ->
  exists out,
    events (proc s') = events (proc s) ++ out
    /\ forall ev t,
         In ev out -> wait_timeout ev = Some t ->
         t = 2 \/ t = timeout (config s).
Proof.
  intros Hem H.
  destruct (Hem _ _ _ eq_refl H) as (out & [_ Hev] & HP).
  exists out. split; [exact Hev |]. intros ev t Hin Ht.
  pose proof (forallb_In _ _ _ HP Hin) as Hok.
  destruct ev as [| |[] f| | | | | | | |]; try discriminate.
  cbn in Ht, Hok. inversion Ht. subst.
  apply orb_true_iff in Hok as [Hok|Hok]; apply Z.eqb_eq in Hok;
    [now left | now right].
Qed.

(** X9.  Whatever happens, every wait for an element that the operations
    start is bounded: by 2 seconds (the logged-in probe) or by the
    configured time-out. *)
Theorem operations_wait_two_seconds_or_the_timeout (name : string) :
  (forall (s s' : Self W) r,
      login E s = (r, s') ->
      exists out,
        events (proc s') = events (proc s) ++ out
        /\ forall ev t,
             In ev out -> wait_timeout ev = Some t ->
             t = 2 \/ t = timeout (config s))
  /\ (forall (s s' : Self W) r,
        add_name E name s = (r, s') ->
        exists out,
          events (proc s') = events (proc s) ++ out
          /\ forall ev t,
               In ev out -> wait_timeout ev = Some t ->
               t = 2 \/ t = timeout (config s))
  /\ (forall (s s' : Self W) r,
        download_configuration E name s = (r, s') ->
        exists out,
          events (proc s') = events (proc s) ++ out
          /\ forall ev t,
               In ev out -> wait_timeout ev = Some t ->
               t = 2 \/ t = timeout (config s)).
Proof.
  repeat split; intros s s' r H.
  - eapply (emitted_waits_bounded []); [apply emits_login | exact H].
  - eapply (emitted_waits_bounded [name]); [apply emits_add_name | exact H].
  - eapply (emitted_waits_bounded []);
      [apply emits_download_configuration | exact H].
Qed.

(** X10.  When [login] answers true, the last thing it did with the browser
    was to wait for the logged-in marker, and the marker was there. *)
Theorem login_true_after_marker_seen (s s' : Self W) :
  login E s = (Ret true, s') ->
  exists pre t tail,
    events (proc s')
    = events (proc s)
      ++ pre ++ Drv (WaitPresence XPATH clients_marker t) None :: tail
    /\ forallb (fun ev => negb (is_call ev)) tail = true.
Proof.
  unfold login. intros H. apply try_except_true_inv in H.
  2:{ intros e s1 b s2 Hh. run Hh. now apply ret_inv in Hh as [<- _]. }
  run_as H probe. destruct probe as [probe|]; cbn [element_truthy] in H.
  - run H. apply ret_inv in H as [_ ->].
    destruct Hm as [_ Hm]. destruct Hm0 as [_ Hm0].
    eexists [], _, [Log INFO "Already logged in"].
    split; [| reflexivity]. rewrite Hm0, Hm, <- app_assoc. reflexivity.
  - destruct Hm as (x & Hx & Hm).
    do 3 run H. run_as H password_field. run_as H login_button.
    destruct password_field as [password_field|];
      [| now apply ret_inv in H as [? _]].
    destruct login_button as [login_button|];
      [| now apply ret_inv in H as [? _]].
    do 4 run H. run_as H marker.
    apply ret_inv in H as [Hr ->].
    destruct marker as [marker|]; [| discriminate].
    chain. rewrite <- ?app_assoc in *.
    match goal with
    | Hx : extends s _ _ |- _ => destruct Hx as [_ Hx]; rewrite Hx
    end.
    eexists (_ :: _ :: _ :: _ :: _ :: _ :: _ :: _ :: _ :: []), _, [].
    split; [reflexivity | reflexivity].
Qed.




End OperationProperties.

Lemma login_true_after_marker_seen_witness :
  exists pre t tail,
    events (proc (snd (login Sim.E0 Sim.self0)))
    = events (proc Sim.self0)
      ++ pre ++ Drv (WaitPresence XPATH clients_marker t) None :: tail
    /\ forallb (fun ev => negb (is_call ev)) tail = true.
Proof.
  apply (login_true_after_marker_seen Sim.E0 Sim.self0
           (snd (login Sim.E0 Sim.self0))).
  vm_compute. reflexivity.
Defined.



(** ** Further properties: the batch and the session *)

Section SessionProperties.

Context {W : Type} (E : Env W).

Lemma op_event_not_pbar names cfg ev :
  op_event names cfg ev = true -> negb (is_pbar_update ev) = true.
Proof. destruct ev; try reflexivity; discriminate. Qed.

Lemma no_progress_in (out : list event) :
  forallb (fun ev => negb (is_pbar_update ev)) out = true ->
  List.filter is_pbar_update out = [].
Proof.
  induction out as [|ev out IH]; [reflexivity |]. cbn.
  intros H. apply andb_prop in H as [Hev H].
  apply negb_true_iff in Hev. now rewrite Hev, (IH H).
Qed.

Lemma batch_run_progress (cfg : Config) func names (s s' : Self W) oks :
  (forall name,
      emits_only cfg (fun ev => negb (is_pbar_update ev)) (func name)) ->
  batch_run func names s oks s' ->
  config s = cfg ->
  exists out,
    extends s s' out
    /\ length (List.filter is_pbar_update out) = length names.
Proof.
  intros Hfunc Hrun.
  induction Hrun as [s|name rest s ok s1 s2 oks s3 Hop Hbar _ IH];
    intros Hcfg.
  - exists []. split; [apply extends_refl | reflexivity].
  - destruct (Hfunc name _ _ _ Hcfg Hop) as (out1 & H1 & HP1).
    assert (Hbar' : extends s1 s2 [PbarUpdate 1])
      by (inversion Hbar; subst; split; reflexivity).
    assert (Hcfg2 : config s2 = cfg)
      by (destruct H1, Hbar'; congruence).
    destruct (IH Hcfg2) as (out2 & H2 & Hn).
    exists (out1 ++ [PbarUpdate 1] ++ out2). split.
    + eapply extends_trans; [exact H1 |].
      eapply extends_trans; eassumption.
    + rewrite List.filter_app, length_app, (no_progress_in _ HP1).
      cbn. now rewrite Hn.
Qed.

Lemma operations_leave_progress_bar (cfg : Config) operation func :
  operation_map E operation = Some func ->
  forall name,
    emits_only cfg (fun ev => negb (is_pbar_update ev)) (func name).
Proof.
  unfold operation_map.
  destruct (String.eqb operation "add");
    [| destruct (String.eqb operation "download")];
    intros H name; inversion H; subst.
  - eapply emits_weaken; [apply op_event_not_pbar | apply emits_add_name].
  - eapply emits_weaken;
      [apply op_event_not_pbar | apply emits_download_configuration].
Qed.

(** X13.  For a valid operation, the progress bar is opened with the number
    of names as its total, advanced once per name, and closed before
    the completion message is logged. *)
Theorem progress_bar_advances_once_per_name
    (names : list string) (operation : string) (s : Self W) :
  operation = "add" \/ operation = "download" ->
  exists s' mid message,
    process_name_list E names operation s = (Ret tt, s')
    /\ events (proc s')
       = events (proc s)
         ++ PbarOpen (length names) (Py.capitalize operation) :: mid
         ++ [PbarClose; Log INFO message]
    /\ length (List.filter is_pbar_update mid) = length names.
Proof.
  intros Hop.
  destruct (operation_map_valid E operation Hop)
    as (func & Hmap & Hfunc & _ & _).
  destruct (process_name_list_steps E names operation s func Hmap Hfunc)
    as (oks & s1 & s2 & s' & Hopen & Hrun & _ & Hall & Hclose).
  destruct (batch_run_progress (config s1) func names s1 s2 oks
              (operations_leave_progress_bar _ _ _ Hmap) Hrun eq_refl)
    as (mid & Hmid & Hn).
  eexists s', mid, _. split; [exact Hall |]. split; [| exact Hn].
  destruct Hopen as [_ Hopen]. destruct Hmid as [_ Hmid].
  destruct Hclose as [_ Hclose].
  rewrite Hclose, Hmid, Hopen, <- !app_assoc. reflexivity.
Qed.

(** X14.  For an operation that is neither [add] nor [download],
    [process_name_list] logs the error and returns: it runs nothing and
    does not open the progress bar. *)
Theorem invalid_operation_is_logged_and_skipped
    (names : list string) (operation : string) (s : Self W) :
  operation <> "add" ->
  operation <> "download" ->
  process_name_list E names operation s
  = (Ret tt,
     MkSelf (config s)
       (MkProc (world (proc s)) (clock (proc s))
          (events (proc s)
           ++ [Log ERROR ("Invalid operation: " +:+ operation)]))).
Proof.
  intros Hadd Hdl. unfold process_name_list, operation_map.
  apply String.eqb_neq in Hadd, Hdl. rewrite Hadd, Hdl. reflexivity.
Qed.

Lemma close_trace (s : Self W) :
  exists s' failure tail,
    close E s = (Ret tt, s')
    /\ events (proc s') = events (proc s) ++ Drv DriverQuit failure :: tail
    /\ (tail = [] \/ exists msg, tail = [Log ERROR msg]).
Proof.
  unfold close, try_except, drive, logger_error, in_proc, emit.
  destruct (drv_quit E (world (proc s))) as [[[]|e] w]; cbn.
  - eexists _, None, []. repeat split. now left.
  - eexists _, (Some e), [_]. split; [reflexivity |]. cbn.
    rewrite <- app_assoc. split; [reflexivity |]. right. eauto.
Qed.

Lemma session_trace (args : Args) (cfg : Config) (p : Proc W) :
  exists p' out failure tail,
    session E args cfg p = (Ret tt, p')
    /\ events p' = events p ++ out ++ Drv DriverQuit failure :: tail
    /\ forallb session_event out = true
    /\ (tail = [] \/ exists msg, tail = [Log ERROR msg]).
Proof.
  unfold session, with_self, try_finally.
  destruct (returns_dispatch E args (MkSelf cfg p)) as ([] & s1 & Hrun).
  rewrite Hrun.
  destruct (emits_dispatch E cfg args (MkSelf cfg p) _ _ eq_refl Hrun)
    as (out & [_ Hout] & HP).
  destruct (close_trace s1) as (s2 & failure & tail & Hclose & Hev & Htail).
  rewrite Hclose. cbn [proc events] in *.
  exists (proc s2), out, failure, tail.
  split; [reflexivity |]. split; [now rewrite Hev, Hout, app_assoc |].
  split; assumption.
Qed.

(** X15.  Whatever the sub-command and whatever happens in it, the [try] of
    [main] asks the browser to quit exactly once, as the last thing it
    asks of it; nothing before that quits the browser, starts one or
    creates the download directory. *)
Theorem session_quits_once_at_the_end
    (args : Args) (cfg : Config) (p : Proc W) :
  exists p' out failure tail,
    session E args cfg p = (Ret tt, p')
    /\ events p' = events p ++ out ++ Drv DriverQuit failure :: tail
    /\ forallb session_event out = true
    /\ forallb (fun ev => negb (is_call ev)) tail = true.
Proof.
  destruct (session_trace args cfg p)
    as (p' & out & failure & tail & Hrun & Hev & Hout & Htail).
  exists p', out, failure, tail. repeat split; try assumption.
  destruct Htail as [-> | (msg & ->)]; reflexivity.
Qed.

Lemma session_event_counts (out : list event) :
  forallb session_event out = true ->
  List.filter is_quit out = [] /\ List.filter is_started out = [].
Proof.
  induction out as [|ev out IH]; [now split |]. cbn.
  intros H. apply andb_prop in H as [Hev H]. destruct (IH H) as [Hq Hs].
  destruct ev as [| |[] f| |d [e|]| | | | | |]; cbn in *;
    try discriminate; now split.
Qed.

Lemma startup_trace (p p1 : Proc W) r :
  startup E p = (r, p1) ->
  exists evs,
    events p1 = events p ++ evs
    /\ List.filter is_quit evs = []
    /\ length (List.filter is_started evs)
       = match r with Ret _ => 1%nat | _ => 0%nat end.
Proof.
  unfold startup, read_info, open_lines, dict_get, WebAutomation_init, bind.
  destruct (read_text E "info.txt" (world p)) as [content|e0];
    cbv beta iota.
  2:{ intros H. inversion H. subst. exists []. now rewrite app_nil_r. }
  destruct (read_info_loop (Py.file_lines content) ∅) as [info|e0|];
    cbv beta iota.
  2,3: intros H; inversion H; subst; exists []; now rewrite app_nil_r.
  destruct (info !! "IP") as [ip|]; cbn [ret raise]; cbv beta iota.
  2:{ intros H. inversion H. subst. exists []. now rewrite app_nil_r. }
  destruct (info !! "password") as [pw|]; cbn [ret raise]; cbv beta iota.
  2:{ intros H. inversion H. subst. exists []. now rewrite app_nil_r. }
  destruct (fs_mkdir E _ (world p)) as [[[]|e] w]; cbn [world clock events];
    cbv beta iota.
  2:{ intros H. inversion H. subst. eexists [_]. repeat split. }
  destruct (chrome_start E _ w) as [[[]|e] w']; cbn [ret];
    cbv beta iota; intros H; inversion H; subst; cbn [events];
    rewrite <- app_assoc; eexists; (split; [reflexivity |]);
    split; reflexivity.
Qed.

(** X16.  In a run of [main], the browser is started at most once, and it is
    asked to quit exactly as many times as it was started: a browser
    that started is always quit, and nothing is quit that did not
    start. *)
Theorem main_quits_what_it_started (args : Args) (p : Proc W) :
  exists evs,
    events (snd (main E args p)) = events p ++ evs
    /\ length (List.filter is_quit evs)
       = length (List.filter is_started evs)
    /\ (length (List.filter is_started evs) <= 1)%nat.
Proof.
  rewrite main_phases. unfold bind.
  destruct (startup E p) as [[cfg|e|] p1] eqn:Hstart;
    destruct (startup_trace _ _ _ Hstart) as (evs0 & Hev0 & Hq0 & Hs0).
  - destruct (session_trace args cfg p1)
      as (p' & out & failure & tail & Hrun & Hev & Hout & Htail).
    rewrite Hrun. cbn [snd].
    exists (evs0 ++ out ++ Drv DriverQuit failure :: tail).
    split; [now rewrite Hev, Hev0, <- app_assoc |].
    destruct (session_event_counts _ Hout) as [Hq Hs].
    assert (Ht : List.filter is_quit tail = []
                 /\ List.filter is_started tail = []).
    { destruct Htail as [-> | (msg & ->)]; now split. }
    destruct Ht as [Hqt Hst].
    rewrite !List.filter_app, !length_app. cbn [List.filter is_quit is_started].
    rewrite Hq0, Hq, Hs, Hqt, Hst, Hs0. cbn. lia.
  - cbn [snd]. exists evs0. rewrite Hq0, Hs0. cbn. repeat split; try lia.
    exact Hev0.
  - cbn [snd]. exists evs0. rewrite Hq0, Hs0. cbn. repeat split; try lia.
    exact Hev0.
Qed.

End SessionProperties.

Lemma progress_bar_advances_once_per_name_witness :
  exists s' mid message,
    process_name_list Sim.E0 ["alice"; "bob"] "add" Sim.self0 = (Ret tt, s')
    /\ events (proc s')
       = events (proc Sim.self0)
         ++ PbarOpen (length ["alice"; "bob"]) (Py.capitalize "add") :: mid
         ++ [PbarClose; Log INFO message]
    /\ length (List.filter is_pbar_update mid) = length ["alice"; "bob"].
Proof.
  apply (progress_bar_advances_once_per_name Sim.E0 ["alice"; "bob"] "add"
           Sim.self0).
  left. reflexivity.
Defined.

Lemma invalid_operation_is_logged_and_skipped_witness :
  process_name_list Sim.E0 ["alice"] "remove" Sim.self0
  = (Ret tt,
     MkSelf (config Sim.self0)
       (MkProc (world (proc Sim.self0)) (clock (proc Sim.self0))
          (events (proc Sim.self0)
           ++ [Log ERROR ("Invalid operation: " +:+ "remove")]))).
Proof.
  apply (invalid_operation_is_logged_and_skipped Sim.E0 ["alice"] "remove"
           Sim.self0); discriminate.
Defined.

(** ** Further properties: the names of a list *)

Section NamesOfAList.

Context {W : Type} (E : Env W).

Lemma contains_char_app (c : ascii) (a b : string) :
  Py.contains_char c (a +:+ b)
  = Py.contains_char c a || Py.contains_char c b.
Proof.
  induction a as [|x a IH]; [reflexivity |].
  rewrite append_cons. simpl. destruct (ascii_dec x c); [reflexivity | exact IH].
Qed.

Lemma contains_char_lstrip (c : ascii) (s : string) :
  Py.contains_char c (Py.lstrip s) = true -> Py.contains_char c s = true.
Proof.
  destruct (lstrip_decomp s) as (pre & Heq & _). intros H.
  rewrite Heq, contains_char_app, H. apply orb_true_r.
Qed.

Lemma contains_char_rstrip (c : ascii) (s : string) :
  Py.contains_char c (Py.rstrip s) = true -> Py.contains_char c s = true.
Proof.
  destruct (rstrip_decomp s) as (post & Heq & _). intros H.
  rewrite Heq, contains_char_app, H. reflexivity.
Qed.

Lemma rstrip_snoc_space (c : ascii) (s : string) :
  Py.isspace c = true -> Py.rstrip (s +:+ String c EmptyString) = Py.rstrip s.
Proof.
  intros Hc. induction s as [|a s IH].
  - rewrite append_nil_l. simpl. now rewrite Hc.
  - rewrite append_cons. simpl. now rewrite IH.
Qed.

Lemma universal_newlines_no_cr (s : string) :
  Py.contains_char Py.CR (Py.universal_newlines s) = false
  /\ (forall c, c <> Py.CR ->
        Py.contains_char Py.CR (Py.universal_newlines (String c s)) = false).
Proof.
  induction s as [|d r [IH1 IH2]].
  - split; [reflexivity |]. intros c Hc. simpl.
    destruct (ascii_dec c Py.CR); [contradiction |]. simpl.
    now destruct (ascii_dec c Py.CR).
  - assert (Hhere : Py.contains_char Py.CR
                      (Py.universal_newlines (String d r)) = false).
    { destruct (ascii_dec d Py.CR) as [->|Hd]; [| now apply IH2].
      simpl. destruct r as [|x r']; [reflexivity |].
      destruct (ascii_dec x Py.LF) as [->|Hx].
      - simpl. specialize (IH2 Py.LF ltac:(discriminate)).
        simpl in IH2. exact IH2.
      - simpl. exact IH1. }
    split; [exact Hhere |]. intros c Hc.
    change (Py.universal_newlines (String c (String d r)))
      with (if ascii_dec c Py.CR
            then if ascii_dec d Py.LF
                 then String Py.LF (Py.universal_newlines r)
                 else String Py.LF (Py.universal_newlines (String d r))
            else String c (Py.universal_newlines (String d r))).
    destruct (ascii_dec c Py.CR); [contradiction |].
    change (Py.contains_char Py.CR
              (String c (Py.universal_newlines (String d r))))
      with (if ascii_dec c Py.CR then true
            else Py.contains_char Py.CR
                   (Py.universal_newlines (String d r))).
    destruct (ascii_dec c Py.CR); [contradiction | exact Hhere].
Qed.

(** A line of a file has no LF but, possibly, its last character. *)
Lemma iter_lines_shape (t line : string) :
  In line (Py.iter_lines t) ->
  exists body,
    Py.contains_char Py.LF body = false
    /\ (line = body \/ line = body +:+ String Py.LF EmptyString).
Proof.
  revert line. induction t as [|c r IH]; intros line; simpl; [tauto |].
  destruct (ascii_dec c Py.LF) as [->|Hc].
  - intros [<-|Hin]; [| now apply IH].
    exists EmptyString. split; [reflexivity | now right].
  - destruct (Py.iter_lines r) as [|l ls] eqn:Hr.
    + intros [<-|[]]. exists (String c EmptyString). split; [| now left].
      simpl. now destruct (ascii_dec c Py.LF).
    + intros [<-|Hin].
      * destruct (IH l (or_introl eq_refl)) as (body & Hb & Hl).
        exists (String c body). split.
        -- simpl. now destruct (ascii_dec c Py.LF).
        -- destruct Hl as [-> | ->]; [now left | now right].
      * apply IH. now right.
Qed.

(** The characters of a line are characters of the file. *)
Lemma iter_lines_chars (x : ascii) (t line : string) :
  In line (Py.iter_lines t) ->
  Py.contains_char x line = true -> Py.contains_char x t = true.
Proof.
  revert line. induction t as [|c r IH]; intros line;
    cbn [Py.iter_lines Py.contains_char]; [intros [] |].
  destruct (ascii_dec c x) as [|Hx]; [reflexivity |].
  destruct (ascii_dec c Py.LF) as [->|Hc].
  - intros [<-|Hin] H; [| eapply IH; eassumption].
    cbn [Py.contains_char] in H.
    destruct (ascii_dec Py.LF x); [contradiction | discriminate].
  - destruct (Py.iter_lines r) as [|l ls] eqn:Hr.
    + intros [<-|[]] H. cbn [Py.contains_char] in H.
      destruct (ascii_dec c x); [contradiction | discriminate].
    + intros [<-|Hin] H.
      * cbn [Py.contains_char] in H.
        destruct (ascii_dec c x); [contradiction |].
        apply (IH l); [now left | exact H].
      * apply (IH line); [now right | exact H].
Qed.

Lemma strip_line_no_break (content line : string) :
  In line (Py.file_lines content) ->
  Py.contains_char Py.LF (Py.strip line) = false
  /\ Py.contains_char Py.CR (Py.strip line) = false.
Proof.
  unfold Py.file_lines. intros Hin. split.
  - destruct (iter_lines_shape _ _ Hin) as (body & Hb & Hl).
    destruct (Py.contains_char Py.LF (Py.strip line)) eqn:Hc; [| reflexivity].
    unfold Py.strip in Hc.
    assert (Hr : Py.rstrip line = Py.rstrip body)
      by (destruct Hl as [-> | ->];
          [reflexivity | now apply rstrip_snoc_space]).
    rewrite Hr in Hc.
    apply contains_char_lstrip, contains_char_rstrip in Hc. congruence.
  - destruct (Py.contains_char Py.CR (Py.strip line)) eqn:Hc; [| reflexivity].
    unfold Py.strip in Hc.
    apply contains_char_lstrip, contains_char_rstrip in Hc.
    apply (iter_lines_chars _ _ _ Hin) in Hc.
    destruct (universal_newlines_no_cr content) as [Hno _]. congruence.
Qed.

(** X17.  No name that [read_names_from_file] returns contains a line break
    (LF or CR), whatever the file holds and whatever its line endings
    are. *)
Theorem read_names_have_no_line_break
    (path : string) (p p' : Proc W) (names : list string) :
  read_names_from_file E path p = (Ret names, p') ->
  forall name,
    In name names ->
    Py.contains_char Py.LF name = false
    /\ Py.contains_char Py.CR name = false.
Proof.
  destruct (read_text E path (world p)) as [content|e] eqn:Hread.
  - rewrite (read_names_readable E _ _ _ Hread). intros H. inversion H.
    subst. intros name Hin. unfold stripped_nonempty in Hin.
    apply in_map_iff in Hin as (line & <- & Hin).
    apply filter_In in Hin as [Hin _].
    now apply (strip_line_no_break content).
  - rewrite (read_names_unreadable E _ _ _ Hread). intros H. inversion H.
    subst. intros name [].
Qed.

End NamesOfAList.

Lemma read_names_have_no_line_break_witness :
  Py.contains_char Py.LF "bob" = false
  /\ Py.contains_char Py.CR "bob" = false.
Proof.
  apply (read_names_have_no_line_break Sim.E0 "names.txt" Sim.fresh Sim.fresh
           ["alice"; "bob"]).
  - vm_compute. reflexivity.
  - right. left. reflexivity.
Defined.
